(** * Study Companion: the assessment generator and the suggestion engine

    A shallow embedding of the logic of [study_companion_app.jsx]: the helper
    functions [shorten], [extractSentences], [pickSentences] and
    [makeDistractors], and the event handlers [handleFileUpload],
    [generateAssessmentFromDoc], [markAssessmentProgress],
    [updateProfileField] and [generateAISuggestions] of the
    [StudyCompanionApp] component, with the sessions that these handlers
    make up.  What the component loads from and saves to local storage is
    left out: a session starts from the initial state of the component.

    Conventions of the model.
    - A JavaScript string is a [string]: one [ascii] per UTF-16 code unit, the
      code units being those below 256.  [length] is the JavaScript [length].
    - A value that may be [undefined] (a missing argument, an array read out
      of range) is an [option]; [None] is [undefined].
    - Integers ([limit], a cap, an id, a score) are [Z].
    - A Number is the rational it stands for, and arithmetic on Numbers
      rounds as IEEE 754 binary64 does ([Binary64]).
    - [Math.random()] and [Date.now()] read an explicit [World]; a random draw
      is a real number of [0,1) ([unit_draws]), which [Math.random] returns
      as a Number.
    - React state is the record [AppState]; a handler is a function from the
      state (and the world) to the next state. *)

From Stdlib Require Import List ZArith QArith Qround Qabs Qpower Bool Arith.
From Stdlib Require Import Lia Lqa.
From Stdlib Require Import Ascii String.
Import ListNotations.

Local Open Scope string_scope.
Local Open Scope list_scope.
Local Open Scope Z_scope.

(** ** JavaScript strings *)

Module JsString.

Definition chars : string -> list ascii := list_ascii_of_string.
Definition str : list ascii -> string := string_of_list_ascii.

(** [s.length] *)
Definition len (s : string) : Z := Z.of_nat (String.length s).

(** Truthiness of a string: only the empty string is falsy. *)
Definition truthy (s : string) : bool :=
  match s with EmptyString => false | String _ _ => true end.

(** [s.slice(from, to)] for integer arguments: a negative argument counts
    from the end, both are clamped to the string. *)
Definition slice (s : string) (from to : Z) : string :=
  let size := len s in
  let rel k := if k <? 0 then Z.max (size + k) 0 else Z.min k size in
  let a := rel from in
  let b := rel to in
  substring (Z.to_nat a) (Z.to_nat (Z.max (b - a) 0)) s.

(** [c.toLowerCase()] on one code unit below 256: the ASCII capitals and the
    Latin-1 capitals (U+00C0..U+00DE but the multiplication sign U+00D7). *)
Definition lower_char (c : ascii) : ascii :=
  let n := nat_of_ascii c in
  if ((65 <=? n) && (n <=? 90))%nat then ascii_of_nat (n + 32)
  else if ((192 <=? n) && (n <=? 222) && negb (n =? 215))%nat
       then ascii_of_nat (n + 32)
       else c.

(** [s.toLowerCase()] *)
Fixpoint toLowerCase (s : string) : string :=
  match s with
  | EmptyString => EmptyString
  | String c s' => String (lower_char c) (toLowerCase s')
  end.

(** [hay.includes(needle)] *)
Fixpoint includes (hay needle : string) : bool :=
  prefix needle hay
  || match hay with
     | EmptyString => false
     | String _ hay' => includes hay' needle
     end.

(** The class [\s] of a regular expression, which is also what [trim]
    removes: tab, line feed, vertical tab, form feed, carriage return,
    space and no-break space. *)
Definition is_space (c : ascii) : bool :=
  let n := nat_of_ascii c in
  ((9 <=? n) && (n <=? 13) || (n =? 32) || (n =? 160))%nat.

Fixpoint trim_start (l : list ascii) : list ascii :=
  match l with
  | c :: l' => if is_space c then trim_start l' else l
  | [] => []
  end.

(** [s.trim()], on the list of code units *)
Definition trim (l : list ascii) : list ascii :=
  rev (trim_start (rev (trim_start l))).

(** The double quote, as a one-character string. *)
Definition dquote : string := String (ascii_of_nat 34) EmptyString.

End JsString.

Import JsString.

(** ** Helper functions of the source *)

(** [function shorten(text = "", n = 200)]: a missing [text] takes the
    default, the empty string. *)
Definition shorten (text : option string) (n : Z) : string :=
  let text := match text with Some t => t | None => "" end in
  if negb (truthy text) then "(no content)"
  else if len text <=? n then text
  else slice text 0 n ++ "...".

(** ** The sentence splitter *)

Module Splitter.

(** The three character classes of the regular expression
    [/(?<=[.?!])\s+(?=[A-Z0-9])/]; [\s] is [is_space]. *)
Definition is_stop (c : ascii) : bool :=
  ((c =? ".") || (c =? "?") || (c =? "!"))%char.

Definition is_cap (c : ascii) : bool :=
  let n := nat_of_ascii c in
  ((65 <=? n) && (n <=? 90) || (48 <=? n) && (n <=? 57))%nat.

(** The lookbehind [(?<=[.?!])] at index [q] of [txt]. *)
Definition lookbehind (txt : list ascii) (q : nat) : bool :=
  match q with
  | O => false
  | S q' =>
      match nth_error txt q' with
      | Some c => is_stop c
      | None => false
      end
  end.

(** The lookahead [(?=[A-Z0-9])] at index [e] of [txt]. *)
Definition lookahead (txt : list ascii) (e : nat) : bool :=
  match nth_error txt e with
  | Some c => is_cap c
  | None => false
  end.

(** The longest run of [\s] at the head of a list: what the greedy [\s+]
    takes first. *)
Fixpoint space_run (l : list ascii) : nat :=
  match l with
  | c :: l' => if is_space c then S (space_run l') else O
  | [] => O
  end.

(** Backtracking of [\s+] from [k] characters down to one: the first
    length at which the lookahead holds gives the end of the match. *)
Fixpoint backtrack (txt : list ascii) (q k : nat) : option nat :=
  match k with
  | O => None
  | S k' =>
      if lookahead txt (q + k) then Some (q + k)%nat else backtrack txt q k'
  end.

(** The regular expression matched at index [q] exactly (as [split]
    does, with the sticky flag): the end index of the match. *)
Definition match_at (txt : list ascii) (q : nat) : option nat :=
  if lookbehind txt q then backtrack txt q (space_run (skipn q txt)) else None.

(** [txt.substring(from, to)] for [from <= to]. *)
Definition substr (txt : list ascii) (from to : nat) : list ascii :=
  firstn (to - from) (skipn from txt).

(** The loop of [RegExp.prototype[Symbol.split]]: [p] is the start of the
    piece being read and [q] the index where a match is tried.  The
    expression has no capture group, so a match adds the piece only.  The
    loop runs while [q < size], and every turn moves [q] forward: [fuel]
    counts the turns left, and [size - q] of them are enough
    ([split_loop_fuel]). *)
Fixpoint split_loop (fuel : nat) (txt : list ascii) (p q : nat)
  : list (list ascii) :=
  match fuel with
  | O => [substr txt p (List.length txt)]
  | S fuel' =>
      if (q <? List.length txt)%nat then
        match match_at txt q with
        | None => split_loop fuel' txt p (q + 1)
        | Some e =>
            if (e =? p)%nat then split_loop fuel' txt p (q + 1)
            else substr txt p q :: split_loop fuel' txt e e
        end
      else [substr txt p (List.length txt)]
  end.

(** [txt.split(/(?<=[.?!])\s+(?=[A-Z0-9])/)]; the limit on the number of
    pieces, 2^32 - 1, is beyond any string and is left out. *)
Definition split (txt : list ascii) : list (list ascii) :=
  match txt with
  | [] => match match_at txt 0 with Some _ => [] | None => [txt] end
  | _ :: _ => split_loop (List.length txt) txt 0 0
  end.

(** The splitting rule in the words of the specification.  A boundary is a
    sentence-ending mark, then whitespace, then a capital or a digit. *)
Definition has_boundary (t : list ascii) : Prop :=
  exists pre c w d post,
    t = pre ++ c :: w ++ d :: post
    /\ is_stop c = true
    /\ w <> [] /\ forallb is_space w = true
    /\ is_cap d = true.

(** [split_at_boundaries t ps]: the pieces [ps] are [t] cut at every
    boundary, and nowhere else, the whitespace of each boundary removed. *)
Inductive split_at_boundaries : list ascii -> list (list ascii) -> Prop :=
| sab_whole (t : list ascii) :
    ~ has_boundary t ->
    split_at_boundaries t [t]
| sab_cut (p : list ascii) (c : ascii) (w : list ascii) (d : ascii)
          (r : list ascii) (ps : list (list ascii)) :
    ~ has_boundary (p ++ [c]) ->
    is_stop c = true ->
    w <> [] -> forallb is_space w = true ->
    is_cap d = true ->
    split_at_boundaries (d :: r) ps ->
    split_at_boundaries ((p ++ [c]) ++ w ++ d :: r) ((p ++ [c]) :: ps).

End Splitter.

(** [text.replace(/\n/g, " ")] *)
Fixpoint replace_newlines (s : string) : string :=
  match s with
  | EmptyString => EmptyString
  | String c s' =>
      String (if (c =? "010")%char then " "%char else c) (replace_newlines s')
  end.

(** [function extractSentences(text = "")] *)
Definition extractSentences (text : string) : list string :=
  if negb (truthy text) then []
  else
    let pieces := map str (Splitter.split (chars (replace_newlines text))) in
    filter truthy (map (fun p => str (trim (chars p))) pieces).

(** ** Numbers *)

(** The Number type of the language is IEEE 754 binary64: the numbers
    [m * 2^e] with [|m| < 2^53] and [e >= -1074].  They are modelled as the
    rationals they are; the numbers met here are far below the largest
    binary64 number, so that infinity is left out. *)
Module Binary64.

Definition pow2 (e : Z) : Q := (2 ^ e)%Q.

(** The integer part of the binary logarithm of [x > 0]. *)
Definition ilog2 (x : Q) : Z :=
  let a := Z.log2 (Qnum x) - Z.log2 (Zpos (Qden x)) in
  if Qle_bool (pow2 a) x then a else a - 1.

(** The exponent of the binade of [x]; the subnormal numbers and zero have
    the least exponent. *)
Definition exponent (x : Q) : Z :=
  if Qle_bool (pow2 (-1022)) (Qabs x) then ilog2 (Qabs x) else -1022.

(** The gap between the binary64 numbers around [x]: 53 bits of
    precision. *)
Definition ulp (x : Q) : Q := pow2 (exponent x - 52).

(** The nearest integer, a tie going to the even one. *)
Definition round_even (x : Q) : Z :=
  let f := Qfloor x in
  match (x - inject_Z f ?= 1 # 2)%Q with
  | Lt => f
  | Gt => f + 1
  | Eq => if Z.even f then f else f + 1
  end.

(** The binary64 number nearest to [x], ties to even: the rounding of every
    arithmetic operation. *)
Definition nearest (x : Q) : Q := (inject_Z (round_even (x / ulp x)) * ulp x)%Q.

(** The greatest binary64 number that is at most [x]. *)
Definition below (x : Q) : Q := (inject_Z (Qfloor (x / ulp x)) * ulp x)%Q.

(** [x * y] on Numbers. *)
Definition times (x y : Q) : Q := nearest (x * y).

Definition number (x : Q) : Prop :=
  exists m e : Z, Z.abs m < 2 ^ 53 /\ -1074 <= e /\ (x == inject_Z m * pow2 e)%Q.

End Binary64.

(** ** The environment: random numbers and the clock *)

Record World := mkWorld {
  draws : nat -> Q;          (* the draws of the calls of Math.random to come *)
  ticks : nat -> Z;          (* the results of the reads of the clock to come *)
  toISOString : Z -> string  (* Date.prototype.toISOString on a time value *)
}.

(** Every draw lies in [0,1), as [Math.random] promises. *)
Definition unit_draws (w : World) : Prop :=
  forall i : nat, (0 <= draws w i)%Q /\ (draws w i < 1)%Q.

(** Computations that read the world. *)
Definition M (A : Type) : Type := World -> A * World.

Definition ret {A : Type} (a : A) : M A := fun w => (a, w).

Definition bind {A B : Type} (c : M A) (k : A -> M B) : M B :=
  fun w => let (a, w') := c w in k a w'.

Notation "x <- c ;; k" := (bind c (fun x => k))
  (at level 61, c at next level, right associativity).

(** [Math.random()]: the Number at or below the draw.  Every Number of
    [0,1) is the result for some draw, itself ([Math_random_any]). *)
Definition Math_random : M Q :=
  fun w => (Binary64.below (draws w 0%nat),
            {| draws := fun i => draws w (S i);
               ticks := ticks w; toISOString := toISOString w |}).

Definition Date_now : M Z :=
  fun w => (ticks w 0%nat,
            {| draws := draws w;
               ticks := fun i => ticks w (S i); toISOString := toISOString w |}).

(** [new Date().toISOString()] *)
Definition Date_iso : M string :=
  fun w => let (t, w') := Date_now w in (toISOString w t, w').

(** [Math.floor(Math.random() * n)], for an array length or a literal [n]:
    an integer below [2^32], which is a Number.  [Math.floor] is exact. *)
Definition random_below (n : Z) : M Z :=
  r <- Math_random ;; ret (Qfloor (Binary64.times r (inject_Z n))).

(** [a[i]]: [undefined] out of range. *)
Definition at_index {A : Type} (a : list A) (i : Z) : option A :=
  if i <? 0 then None else nth_error a (Z.to_nat i).

(** [a.push(x)] *)
Definition push {A : Type} (a : list A) (x : A) : list A := a ++ [x].

(** ** Sampling *)

(** The loop [for (let i = 0; i < limit; i++) out.push(...)], [count] turns
    being left. *)
Fixpoint pick_loop (sentences : list string) (count : nat)
         (out : list (option string)) : M (list (option string)) :=
  match count with
  | O => ret out
  | S count' =>
      i <- random_below (Z.of_nat (List.length sentences)) ;;
      pick_loop sentences count' (push out (at_index sentences i))
  end.

(** [function pickSentences(sentences, limit = 5)] *)
Definition pickSentences (sentences : option (list string)) (limit : Z)
  : M (list (option string)) :=
  match sentences with
  | None | Some [] => ret [Some "No content to generate from."]
  | Some l => pick_loop l (Z.to_nat limit) []
  end.

(** [p !== seed] *)
Definition differs (p : string) (seed : option string) : bool :=
  match seed with
  | Some s => negb (p =? s)%string
  | None => true
  end.

(** [x || "Review the text for details."] *)
Definition or_fallback (x : option string) : string :=
  match x with
  | Some s => if truthy s then s else "Review the text for details."
  | None => "Review the text for details."
  end.

Fixpoint distractor_loop (candidates : list string) (count : nat)
         (distractors : list string) : M (list string) :=
  match count with
  | O => ret distractors
  | S count' =>
      i <- random_below (Z.of_nat (List.length candidates)) ;;
      let pick := or_fallback (at_index candidates i) in
      distractor_loop candidates count' (push distractors (shorten (Some pick) 80))
  end.

(** [function makeDistractors(seed, pool, num = 3)] *)
Definition makeDistractors (seed : option string) (pool : list string) (num : Z)
  : M (list string) :=
  let candidates := firstn 20 (filter (fun p => differs p seed) pool) in
  distractors <- distractor_loop candidates (Z.to_nat num) [] ;;
  ret (shorten seed 80 :: distractors).

(** ** The application state *)

Record Profile := mkProfile {
  name : string;
  institution : string;
  syllabus : string;
  qualification : string;
  nationality : string;
  learningStyle : string
}.

Record Document := mkDocument {
  doc_id : Z;
  doc_name : string;
  doc_size : Z;
  doc_text : string;
  uploadedAt : string;
  pdfStub : bool
}.

Record AssessmentItem := mkItem {
  item_id : Z;
  item_type : string;
  question : string;
  choices : option (list string);   (* absent from a short-answer item *)
  answer : option string
}.

Record Assessment := mkAssessment {
  assessment_id : Z;
  docId : Z;
  title : string;
  items : list AssessmentItem;
  createdAt : string
}.

Record ProgressPoint := mkPoint {
  month : string;
  score : Z
}.

Record AppState := mkState {
  route : string;
  profile : Profile;
  documents : list Document;
  assessments : list Assessment;
  progressData : list ProgressPoint
}.

Definition sampleProgress : list ProgressPoint :=
  [ mkPoint "Jan" 45; mkPoint "Feb" 52; mkPoint "Mar" 58; mkPoint "Apr" 62;
    mkPoint "May" 68; mkPoint "Jun" 72; mkPoint "Jul" 75; mkPoint "Aug" 80 ].

Definition emptyProfile : Profile := mkProfile "" "" "" "" "" "".

Definition initialState : AppState :=
  mkState "dashboard" emptyProfile [] [] sampleProgress.

(** ** Building an assessment *)

(** The body of the callback of [picks.map((s, i) => ...)]. *)
Definition make_item (type : string) (sentences : list string)
           (s : option string) (i : Z) : M AssessmentItem :=
  if (type =? "mcq")%string then
    choices <- makeDistractors s sentences 3 ;;
    now <- Date_now ;;
    ret {| item_id := now + i;
           item_type := "mcq";
           question := "What best explains: " ++ dquote ++ shorten s 120
                         ++ dquote ++ "?";
           choices := Some choices;
           answer := at_index choices 0 |}
  else
    now <- Date_now ;;
    ret {| item_id := now + i;
           item_type := "short";
           question := "Explain: " ++ dquote ++ shorten s 120 ++ dquote;
           choices := None;
           answer := s |}.

(** [picks.map((s, i) => ...)], from index [i] on. *)
Fixpoint map_items (type : string) (sentences : list string)
         (picks : list (option string)) (i : Z) : M (list AssessmentItem) :=
  match picks with
  | [] => ret []
  | s :: picks' =>
      it <- make_item type sentences s i ;;
      its <- map_items type sentences picks' (i + 1) ;;
      ret (it :: its)
  end.

(** [documents.find((d) => d.id === docId)] *)
Definition find_doc (id : Z) (st : AppState) : option Document :=
  find (fun d => doc_id d =? id) (documents st).

(** [function generateAssessmentFromDoc(docId, type = "mcq", limit = 5)] *)
Definition generateAssessmentFromDoc (id : Z) (type : string) (limit : Z)
           (st : AppState) : M AppState :=
  match find_doc id st with
  | None => ret st
  | Some doc =>
      let sentences := extractSentences (doc_text doc) in
      picks <- pickSentences (Some sentences) limit ;;
      items <- map_items type sentences picks 0 ;;
      now <- Date_now ;;
      created <- Date_iso ;;
      let assessment :=
        {| assessment_id := now;
           docId := id;
           title := "Auto Assessment - " ++ doc_name doc;
           items := items;
           createdAt := created |} in
      ret {| route := "assessments";
             profile := profile st;
             documents := documents st;
             assessments := assessment :: assessments st;
             progressData := progressData st |}
  end.

(** ** Simulated progress *)

(** What a handler leaves behind: the next state, or a [TypeError] thrown
    before any state is set. *)
Inductive Outcome :=
| Done (st : AppState)
| TypeError.

(** [a[i] = x] for [i] within the array. *)
Fixpoint set_at {A : Type} (a : list A) (i : nat) (x : A) : list A :=
  match a, i with
  | [], _ => []
  | _ :: a', O => x :: a'
  | y :: a', S i' => y :: set_at a' i' x
  end.

(** [function markAssessmentProgress(assessmentId)].  Reading [.score] of an
    entry that is not there throws. *)
Definition markAssessmentProgress (assessmentId : Z) (st : AppState)
  : M Outcome :=
  let newData :=
    map (fun p => {| month := month p; score := score p |}) (progressData st) in
  idx <- random_below (Z.of_nat (List.length newData)) ;;
  match at_index newData idx with
  | None => ret TypeError
  | Some entry =>
      d <- random_below 20 ;;
      let entry' :=
        {| month := month entry; score := Z.min 100 (score entry + d) |} in
      ret (Done {| route := route st;
                   profile := profile st;
                   documents := documents st;
                   assessments := assessments st;
                   progressData := set_at newData (Z.to_nat idx) entry' |})
  end.

(** ** The profile and the suggestions *)

(** [function updateProfileField(field, value)]: the profile with one field
    replaced; a key that is none of the six leaves the six as they are. *)
Definition updateProfileField (field value : string) (p : Profile) : Profile :=
  if (field =? "name")%string then
    mkProfile value (institution p) (syllabus p) (qualification p)
              (nationality p) (learningStyle p)
  else if (field =? "institution")%string then
    mkProfile (name p) value (syllabus p) (qualification p)
              (nationality p) (learningStyle p)
  else if (field =? "syllabus")%string then
    mkProfile (name p) (institution p) value (qualification p)
              (nationality p) (learningStyle p)
  else if (field =? "qualification")%string then
    mkProfile (name p) (institution p) (syllabus p) value
              (nationality p) (learningStyle p)
  else if (field =? "nationality")%string then
    mkProfile (name p) (institution p) (syllabus p) (qualification p)
              value (learningStyle p)
  else if (field =? "learningStyle")%string then
    mkProfile (name p) (institution p) (syllabus p) (qualification p)
              (nationality p) value
  else p.

Definition set_profile (p : Profile) (st : AppState) : AppState :=
  mkState (route st) p (documents st) (assessments st) (progressData st).

(** The strings that [generateAISuggestions] pushes. *)
Module Advice.

Definition depth : string :=
  "Focus on conceptual depth and past-year exam patterns.".
Definition problem_sets : string :=
  "Do daily problem sets; mix timed quizzes and long-form proofs.".
Definition balance : string :=
  "Balance board-style MCQs with subjective practice (common in many Indian exams).".
Definition upload : string :=
  "Upload a syllabus or sample notes for more tailored suggestions.".
Definition spaced : string :=
  "Use spaced repetition: create flashcards from each doc's key facts.".
Definition tailor (style : string) : string :=
  "Tailor materials to your learning style: " ++ style ++ ".".
(** The dash of this message is outside the code units of the model: the
    literal holds its UTF-8 bytes. *)
Definition no_data : string :=
  "No profile data yet — fill in your profile for personalized suggestions.".

End Advice.

(** [function generateAISuggestions()], which reads [profile] and
    [documents] from the state. *)
Definition generateAISuggestions (st : AppState) : list string :=
  let profile := profile st in
  let base : list string := [] in
  let base :=
    if includes (toLowerCase (qualification profile)) "bachelor"
       || includes (toLowerCase (qualification profile)) "undergrad"
    then push base Advice.depth else base in
  let base :=
    if includes (toLowerCase (syllabus profile)) "math"
       || includes (toLowerCase (syllabus profile)) "calculus"
    then push base Advice.problem_sets else base in
  let base :=
    if truthy (nationality profile)
       && (toLowerCase (nationality profile) =? "india")%string
    then push base Advice.balance else base in
  let base :=
    if negb (truthy (syllabus profile)) then push base Advice.upload else base in
  let base :=
    if (3 <=? Z.of_nat (List.length (documents st))) then push base Advice.spaced
    else base in
  let base :=
    if truthy (learningStyle profile)
    then push base (Advice.tailor (learningStyle profile)) else base in
  match base with
  | [] => [Advice.no_data]
  | _ :: _ => base
  end.

(** The rules of the suggestion engine as the specification lists them. *)
Module Rules.

Inductive rule := R1 | R2 | R3 | R4 | R5 | R6.

Definition all : list rule := [R1; R2; R3; R4; R5; R6].

Definition holds (k : rule) (p : Profile) (documentCount : nat) : bool :=
  match k with
  | R1 => includes (toLowerCase (qualification p)) "bachelor"
          || includes (toLowerCase (qualification p)) "undergrad"
  | R2 => includes (toLowerCase (syllabus p)) "math"
          || includes (toLowerCase (syllabus p)) "calculus"
  | R3 => (toLowerCase (nationality p) =? "india")%string
  | R4 => (syllabus p =? "")%string
  | R5 => (3 <=? documentCount)%nat
  | R6 => negb (learningStyle p =? "")%string
  end.

Definition advice (k : rule) (p : Profile) : string :=
  match k with
  | R1 => Advice.depth
  | R2 => Advice.problem_sets
  | R3 => Advice.balance
  | R4 => Advice.upload
  | R5 => Advice.spaced
  | R6 => Advice.tailor (learningStyle p)
  end.

(** The strings of the rules of [ks] that hold, in the order of [ks]. *)
Definition fired (ks : list rule) (p : Profile) (documentCount : nat)
  : list string :=
  map (fun k => advice k p) (filter (fun k => holds k p documentCount) ks).

Definition suggest (p : Profile) (documentCount : nat) : list string :=
  match fired all p documentCount with
  | [] => [Advice.no_data]
  | l => l
  end.

(** The rules before and after a rule in the order of the table. *)
Definition before (k : rule) : list rule :=
  match k with
  | R1 => []
  | R2 => [R1]
  | R3 => [R1; R2]
  | R4 => [R1; R2; R3]
  | R5 => [R1; R2; R3; R4]
  | R6 => [R1; R2; R3; R4; R5]
  end.

Definition after (k : rule) : list rule :=
  match k with
  | R1 => [R2; R3; R4; R5; R6]
  | R2 => [R3; R4; R5; R6]
  | R3 => [R4; R5; R6]
  | R4 => [R5; R6]
  | R5 => [R6]
  | R6 => []
  end.

(** The other rule on the same field: rules 2 and 4 both read the
    syllabus. *)
Definition rival (k : rule) : option rule :=
  match k with
  | R2 => Some R4
  | R4 => Some R2
  | _ => None
  end.

End Rules.

(** ** The sentence rule in the words of the specification *)

(** The specification speaks of an uppercase letter and of line breaks,
    where the regular expressions have [A-Z] and the line feed. *)
Module AsWritten.

(** An uppercase letter: a character that [toLowerCase] changes. *)
Definition is_uppercase (c : ascii) : bool := negb (lower_char c =? c)%char.

Definition is_digit (c : ascii) : bool :=
  let n := nat_of_ascii c in ((48 <=? n) && (n <=? 57))%nat.

(** A line break: a line feed or a carriage return. *)
Definition is_line_break (c : ascii) : bool :=
  ((c =? "010") || (c =? "013"))%char.

(** A boundary: a sentence-ending mark, then whitespace, then an uppercase
    letter or a digit. *)
Definition has_boundary (t : list ascii) : Prop :=
  exists pre c w d post,
    t = pre ++ c :: w ++ d :: post
    /\ Splitter.is_stop c = true
    /\ w <> [] /\ forallb is_space w = true
    /\ is_uppercase d || is_digit d = true.

End AsWritten.

(** ** Vocabulary of the statements *)

(** The world after [k] more calls of [Math.random]. *)
Definition after_draws (k : nat) (w : World) : World :=
  {| draws := fun i => draws w (k + i)%nat;
     ticks := ticks w; toISOString := toISOString w |}.

(** The index that the [i]-th draw to come selects in an array of [n]
    elements. *)
Definition drawn_index (w : World) (n : nat) (i : nat) : Z :=
  Qfloor (Binary64.times (Binary64.below (draws w i))
                         (inject_Z (Z.of_nat n))).

(** The fallback distractor. *)
Definition fallback : string := "Review the text for details.".

(** [pool.filter((p) => p !== seed).slice(0, 20)] *)
Definition candidates_of (seed : option string) (pool : list string)
  : list string :=
  firstn 20 (filter (fun p => differs p seed) pool).

(** The distractor that the [i]-th draw to come yields. *)
Definition drawn_distractor (candidates : list string) (w : World) (i : nat)
  : string :=
  shorten (Some (or_fallback
                   (at_index candidates
                      (drawn_index w (List.length candidates) i)))) 80.

(** What one multiple-choice item is made of. *)
Definition mcq_of (seed : option string) (it : AssessmentItem) : Prop :=
  item_type it = "mcq"
  /\ exists d1 d2 d3,
      choices it = Some [shorten seed 80; d1; d2; d3]
      /\ answer it = Some (shorten seed 80).

Definition short_of (seed : option string) (it : AssessmentItem) : Prop :=
  item_type it = "short" /\ choices it = None /\ answer it = seed.

Definition item_of (type : string) (seed : option string)
           (it : AssessmentItem) : Prop :=
  if (type =? "mcq")%string then mcq_of seed it else short_of seed it.

(** A world and a state to evaluate the handlers on: the draws are 0/7,
    1/7, ..., 6/7 in turn and the clock starts at 1000; one document has been
    uploaded. *)
Definition demoWorld : World :=
  mkWorld (fun i => (Z.of_nat (i mod 7) # 7)%Q)
          (fun i => 1000 + Z.of_nat i)
          (fun _ => "2024-01-01T00:00:00.000Z").

Definition demoState : AppState :=
  mkState "upload" emptyProfile
          [mkDocument 7 "notes.txt" 36 "Hello world. This Is Fine! Next one?"
                      "2024-01-01T00:00:00.000Z" false]
          [] sampleProgress.

(** ** Uploads *)

(** [s.endsWith(suffix)] *)
Definition endsWith (s suffix : string) : bool :=
  let n := String.length s in
  let m := String.length suffix in
  (m <=? n)%nat && (substring (n - m) m s =? suffix)%string.

(** A selected file: its name, size and MIME type, and the text that
    [reader.readAsText(file)] hands to [onload]. *)
Record File := mkFile {
  file_name : string;
  file_size : Z;
  file_type : string;
  file_text : string
}.

(** [setRoute(r)] *)
Definition setRoute (r : string) (st : AppState) : AppState :=
  mkState r (profile st) (documents st) (assessments st) (progressData st).

(** [setDocuments((s) => [doc, ...s])] *)
Definition add_document (doc : Document) (st : AppState) : AppState :=
  mkState (route st) (profile st) (doc :: documents st) (assessments st)
          (progressData st).

(** The two tests of [handleFileUpload] on the type and the name. *)
Definition is_text_file (file : File) : bool :=
  (file_type file =? "text/plain")%string || endsWith (file_name file) ".txt".

Definition is_pdf_file (file : File) : bool :=
  (file_type file =? "application/pdf")%string
  || endsWith (file_name file) ".pdf".

(** The callback [reader.onload] of the two branches that read the file. *)
Definition store_text (file : File) (st : AppState)
  : M (AppState * option string) :=
  now <- Date_now ;;
  iso <- Date_iso ;;
  let doc := {| doc_id := now; doc_name := file_name file;
                doc_size := file_size file; doc_text := file_text file;
                uploadedAt := iso; pdfStub := false |} in
  ret (setRoute "upload" (add_document doc st), None).

(** [function handleFileUpload(e)], for [e.target.files[0]]; the second
    component is the message of [alert], if any.  The callback of the
    reader is run at once, on the state of that moment. *)
Definition handleFileUpload (file : option File) (st : AppState)
  : M (AppState * option string) :=
  match file with
  | None => ret (st, None)
  | Some file =>
      if is_text_file file then store_text file st
      else if is_pdf_file file then
        now <- Date_now ;;
        iso <- Date_iso ;;
        let doc := {| doc_id := now; doc_name := file_name file;
                      doc_size := file_size file;
                      doc_text := "[PDF parsing required]";
                      uploadedAt := iso; pdfStub := true |} in
        ret (add_document doc st,
             Some "PDF uploaded. For full text extraction, enable pdf parsing (pdfjs) or use server-side ingestion.")
      else store_text file st
  end.

(** ** Sessions *)

(** What the user can do: the navigation buttons, the file inputs, the
    two generate buttons, the simulate button, the fields of the profile
    form and its reset button. *)
Inductive Event :=
| Navigate (r : string)
| Upload (file : option File)
| Generate (id : Z) (type : string) (limit : Z)
| SimulateComplete (assessmentId : Z)
| EditField (field value : string)
| ResetProfile.

Definition handle (e : Event) (st : AppState) : M Outcome :=
  match e with
  | Navigate r => ret (Done (setRoute r st))
  | Upload file => r <- handleFileUpload file st ;; ret (Done (fst r))
  | Generate id type limit =>
      st' <- generateAssessmentFromDoc id type limit st ;; ret (Done st')
  | SimulateComplete assessmentId => markAssessmentProgress assessmentId st
  | EditField field value =>
      ret (Done (set_profile (updateProfileField field value (profile st)) st))
  | ResetProfile => ret (Done (set_profile emptyProfile st))
  end.

(** The events of a session in turn, up to the first handler that throws. *)
Fixpoint run (es : list Event) (st : AppState) : M Outcome :=
  match es with
  | [] => ret (Done st)
  | e :: es' =>
      o <- handle e st ;;
      match o with
      | Done st' => run es' st'
      | TypeError => ret TypeError
      end
  end.

(** An item as the data model wants it. *)
Definition item_well_formed (it : AssessmentItem) : Prop :=
  (item_type it = "mcq"
   /\ exists c d1 d2 d3,
       choices it = Some [c; d1; d2; d3] /\ answer it = Some c)
  \/ (item_type it = "short" /\ choices it = None).

Definition progress_in_range (st : AppState) : Prop :=
  map month (progressData st) = map month sampleProgress
  /\ Forall2 (fun p0 p => score p0 <= score p <= 100)
             sampleProgress (progressData st).

Definition assessments_sound (st : AppState) : Prop :=
  Forall (fun a =>
            (exists d, In d (documents st) /\ doc_id d = docId a)
            /\ Forall item_well_formed (items a))
         (assessments st).

(** The document that an upload stores. *)
Definition stored_as_stub (file : File) : bool :=
  negb (is_text_file file) && is_pdf_file file.

Definition uploaded_doc (file : File) (w : World) : Document :=
  {| doc_id := ticks w 0;
     doc_name := file_name file;
     doc_size := file_size file;
     doc_text := if stored_as_stub file then "[PDF parsing required]"
                 else file_text file;
     uploadedAt := toISOString w (ticks w 1);
     pdfStub := stored_as_stub file |}.

(** ** Vocabulary for sentences *)

(** [a] is a contiguous part of [l]. *)
Definition infix (a l : list ascii) : Prop := exists x y, l = x ++ a ++ y.

Definition line_feed : ascii := "010"%char.

(** The last character is one of [.], [?] and [!]. *)
Definition ends_with_stop (s : string) : Prop :=
  exists p c, chars s = p ++ [c] /\ Splitter.is_stop c = true.

(** The first character is a capital or a digit. *)
Definition starts_with_cap (s : string) : Prop :=
  exists d r, chars s = d :: r /\ Splitter.is_cap d = true.

(** No whitespace at either end. *)
Definition trimmed (s : string) : Prop :=
  (forall c r, chars s = c :: r -> is_space c = false)
  /\ (forall r c, chars s = r ++ [c] -> is_space c = false).

(** The clock does not run backwards. *)
Definition clock_monotone (w : World) : Prop :=
  forall i : nat, ticks w i <= ticks w (S i).

(** The sentence that [pickSentences] returns for a text without
    sentences. *)
Definition placeholder : string := "No content to generate from.".

(** A state whose one document is blank. *)
Definition blankState : AppState :=
  mkState "upload" emptyProfile
          [mkDocument 9 "blank.txt" 3 "   " "2024-01-01T00:00:00.000Z" false]
          [] sampleProgress.

(** A file and a session to evaluate the handlers on. *)
Definition demoFile : File :=
  mkFile "week1.txt" 28 "text/plain" "Sets are collections. Maps too.".

Definition demoSession : list Event :=
  [ Upload (Some demoFile); Generate 1000 "mcq" 4; SimulateComplete 1006;
    EditField "syllabus" "Math"; SimulateComplete 1006; ResetProfile;
    Navigate "dashboard" ].

(** The profile with the three matched fields in lower case. *)
Definition lowered (p : Profile) : Profile :=
  mkProfile (name p) (institution p) (toLowerCase (syllabus p))
            (toLowerCase (qualification p)) (toLowerCase (nationality p))
            (learningStyle p).

(** * Properties *)

(** ** Lengths of strings *)

Section StringFacts.

Lemma length_substring (s : string) :
  forall n m, String.length (substring n m s) = Nat.min m (String.length s - n).
Proof.
  induction s as [|c s IH]; intros n m.
  - destruct n, m; reflexivity.
  - destruct n as [|n].
    + destruct m as [|m]; simpl; [reflexivity|].
      rewrite IH. now rewrite Nat.sub_0_r.
    + simpl. apply IH.
Qed.

Lemma length_append (s t : string) :
  String.length (s ++ t) = (String.length s + String.length t)%nat.
Proof. induction s; simpl; congruence. Qed.

Lemma len_slice_prefix (s : string) (n : Z) :
  0 <= n -> len (slice s 0 n) = Z.min n (len s).
Proof.
  intros Hn. unfold slice, len.
  assert (H0 : (0 <? 0) = false) by reflexivity. rewrite H0.
  destruct (n <? 0) eqn:E; [apply Z.ltb_lt in E; lia|].
  rewrite length_substring. lia.
Qed.

Lemma truthy_nonempty (s : string) : truthy s = true <-> s <> "".
Proof. destruct s; simpl; split; congruence. Qed.

End StringFacts.

(** ** The regular expression and the loop of [split] *)

Section SplitterFacts.

Import Splitter.
Local Open Scope nat_scope.

Lemma cap_not_space (c : ascii) : is_cap c = true -> is_space c = false.
Proof.
  destruct c as [[|] [|] [|] [|] [|] [|] [|] [|]];
    vm_compute; intros H; first [reflexivity | discriminate H].
Qed.

Lemma stop_not_space (c : ascii) : is_stop c = true -> is_space c = false.
Proof.
  destruct c as [[|] [|] [|] [|] [|] [|] [|] [|]];
    vm_compute; intros H; first [reflexivity | discriminate H].
Qed.

Lemma space_run_app (w : list ascii) (d : ascii) (post : list ascii) :
  forallb is_space w = true -> is_space d = false ->
  space_run (w ++ d :: post) = List.length w.
Proof.
  intros Hw Hd. induction w as [|a w IH]; simpl in *.
  - now rewrite Hd.
  - apply andb_true_iff in Hw as [Ha Hw]. rewrite Ha. f_equal. auto.
Qed.

(** The run of whitespace that [space_run] measures, and what follows it. *)
Lemma space_run_split (l : list ascii) :
  exists w r,
    l = w ++ r /\ List.length w = space_run l
    /\ forallb is_space w = true
    /\ (forall c r', r = c :: r' -> is_space c = false).
Proof.
  induction l as [|a l (w & r & E & L & W & R)]; simpl.
  - exists [], []. repeat split; auto. discriminate.
  - destruct (is_space a) eqn:Ha.
    + exists (a :: w), r. simpl. rewrite Ha, W, L, <- E. repeat split; auto.
    + exists [], (a :: l). repeat split; auto. intros c r' [= <- _]. exact Ha.
Qed.

Lemma nth_error_at (l1 l2 : list ascii) (x : ascii) (n : nat) :
  n = List.length l1 -> nth_error (l1 ++ x :: l2) n = Some x.
Proof.
  intros ->. rewrite nth_error_app2, Nat.sub_diag by lia. reflexivity.
Qed.

Lemma skipn_at (l1 l2 : list ascii) (n : nat) :
  n = List.length l1 -> skipn n (l1 ++ l2) = l2.
Proof.
  intros ->. rewrite skipn_app, skipn_all, Nat.sub_diag. reflexivity.
Qed.

Lemma backtrack_Some (txt : list ascii) (q k e : nat) :
  backtrack txt q k = Some e ->
  exists k', 1 <= k' <= k /\ e = q + k' /\ lookahead txt e = true.
Proof.
  induction k as [|k IH]; simpl; [discriminate|].
  destruct (lookahead txt (q + S k)) eqn:La.
  - intros [= <-]. exists (S k). repeat split; auto; lia.
  - intros H. destruct (IH H) as (k' & ? & ? & ?). exists k'. repeat split; auto; lia.
Qed.

Lemma forallb_nth_error (f : ascii -> bool) (w : list ascii) (i : nat) (c : ascii) :
  forallb f w = true -> nth_error w i = Some c -> f c = true.
Proof.
  intros Hw Hi. rewrite forallb_forall in Hw. apply Hw.
  eapply nth_error_In; eauto.
Qed.

(** A match of the expression at [q] is a boundary: the whitespace taken is
    the whole run after the mark, and a capital or a digit follows. *)
Lemma match_at_sound (txt : list ascii) (q e : nat) :
  match_at txt q = Some e ->
  exists pre c w d post,
    txt = pre ++ c :: w ++ d :: post
    /\ q = List.length pre + 1 /\ e = q + List.length w
    /\ is_stop c = true /\ w <> [] /\ forallb is_space w = true
    /\ is_cap d = true.
Proof.
  unfold match_at, lookbehind.
  destruct q as [|q']; [discriminate|].
  destruct (nth_error txt q') as [c|] eqn:Hc; [|discriminate].
  destruct (is_stop c) eqn:Sc; [|discriminate].
  intros Hb.
  destruct (nth_error_split _ _ Hc) as (pre & rest & -> & Lpre).
  change (pre ++ c :: rest) with (pre ++ [c] ++ rest) in Hb.
  rewrite app_assoc, skipn_at in Hb by (rewrite length_app; simpl List.length; lia).
  destruct (space_run_split rest) as (w & r & -> & Lw & Ww & Rr).
  apply backtrack_Some in Hb as (k' & Hk & -> & La).
  rewrite <- Lw in Hk.
  unfold lookahead in La.
  rewrite nth_error_app2 in La by (rewrite length_app; simpl List.length; lia).
  replace (S q' + k' - List.length (pre ++ [c])) with k' in La
    by (rewrite length_app; simpl List.length; lia).
  destruct (Nat.eq_dec k' (List.length w)) as [->|Hne].
  - rewrite nth_error_app2, Nat.sub_diag in La by lia.
    destruct r as [|d post]; [discriminate|]. simpl in La.
    exists pre, c, w, d, post. repeat split; auto; try lia.
    intros ->. simpl in Hk. lia.
  - rewrite nth_error_app1 in La by lia.
    destruct (nth_error w k') as [x|] eqn:Hx; [|discriminate].
    apply cap_not_space in La.
    rewrite (forallb_nth_error _ _ _ _ Ww Hx) in La. discriminate.
Qed.

Lemma match_at_complete (pre : list ascii) (c : ascii) (w : list ascii)
      (d : ascii) (post : list ascii) :
  is_stop c = true -> w <> [] -> forallb is_space w = true ->
  is_cap d = true ->
  match_at (pre ++ c :: w ++ d :: post) (List.length pre + 1)
  = Some (List.length pre + 1 + List.length w).
Proof.
  intros Sc Hw Ww Cd. unfold match_at, lookbehind.
  rewrite Nat.add_1_r.
  rewrite nth_error_app2, Nat.sub_diag by lia. cbn [nth_error]. cbv iota. rewrite Sc.
  replace (skipn (S (List.length pre)) (pre ++ c :: w ++ d :: post))
    with (w ++ d :: post).
  2:{ change (pre ++ c :: w ++ d :: post) with (pre ++ [c] ++ w ++ d :: post).
      rewrite app_assoc, skipn_at by (rewrite length_app; simpl List.length; lia).
      reflexivity. }
  rewrite space_run_app by auto using cap_not_space.
  destruct w as [|a w]; [congruence|]. cbn [List.length backtrack].
  assert (La : lookahead (pre ++ c :: (a :: w) ++ d :: post)
                         (S (List.length pre) + S (List.length w)) = true).
  { unfold lookahead.
    change (pre ++ c :: (a :: w) ++ d :: post)
      with (pre ++ (c :: a :: w) ++ d :: post).
    rewrite app_assoc, nth_error_at by (rewrite length_app; simpl List.length; lia).
    exact Cd. }
  rewrite La. reflexivity.
Qed.

Lemma match_at_forward (txt : list ascii) (q e : nat) :
  match_at txt q = Some e -> q < e <= List.length txt.
Proof.
  intros H.
  destruct (match_at_sound _ _ _ H) as (pre & c & w & d & post & -> & -> & -> & _ & Hw & _).
  destruct w; [congruence|].
  rewrite !length_app. simpl. rewrite length_app. simpl. lia.
Qed.

(** The loop needs [size - q] turns and no more. *)
Lemma split_loop_fuel (txt : list ascii) (f1 : nat) :
  forall f2 p q,
    List.length txt - q <= f1 -> List.length txt - q <= f2 ->
    split_loop f1 txt p q = split_loop f2 txt p q.
Proof.
  induction f1 as [|f1 IH]; intros f2 p q H1 H2.
  - destruct f2 as [|f2]; [reflexivity|]. simpl.
    destruct (Nat.ltb_spec q (List.length txt)); [lia|reflexivity].
  - destruct f2 as [|f2]; simpl.
    + destruct (Nat.ltb_spec q (List.length txt)); [lia|reflexivity].
    + destruct (Nat.ltb_spec q (List.length txt)); [|reflexivity].
      destruct (match_at txt q) as [e|] eqn:Hm.
      * apply match_at_forward in Hm.
        destruct (e =? p); [apply IH; lia|].
        f_equal. apply IH; lia.
      * apply IH; lia.
Qed.

Lemma three_parts (txt : list ascii) (p q : nat) :
  p <= q ->
  txt = firstn p txt ++ substr txt p q ++ skipn q txt.
Proof.
  intros Hpq. unfold substr.
  replace (skipn q txt) with (skipn (q - p) (skipn p txt))
    by (rewrite skipn_skipn; f_equal; lia).
  now rewrite !firstn_skipn.
Qed.

Lemma length_substr (txt : list ascii) (p q : nat) :
  p <= q <= List.length txt -> List.length (substr txt p q) = q - p.
Proof.
  intros H. unfold substr. rewrite length_firstn, length_skipn. lia.
Qed.

(** Where the expression matched nowhere, there is no boundary. *)
Lemma unmatched_no_boundary (txt : list ascii) (p q : nat) :
  p <= q <= List.length txt ->
  (forall j, p < j < q -> match_at txt j = None) ->
  ~ has_boundary (substr txt p q).
Proof.
  intros Hpq Hnone (pre & c & w & d & post & E & Sc & Hw & Ww & Cd).
  pose proof (length_substr txt p q Hpq) as L.
  rewrite E in L. rewrite length_app in L. simpl in L.
  rewrite length_app in L. simpl in L.
  pose proof (three_parts txt p q (proj1 Hpq)) as T.
  rewrite E in T.
  assert (T' : txt = (firstn p txt ++ pre) ++ c :: w ++ d :: (post ++ skipn q txt)).
  { rewrite T at 1. rewrite <- !app_assoc. simpl. rewrite <- !app_assoc.
    reflexivity. }
  pose proof (match_at_complete (firstn p txt ++ pre) c w d
                (post ++ skipn q txt) Sc Hw Ww Cd) as Hm.
  rewrite <- T' in Hm.
  rewrite Hnone in Hm; [discriminate|].
  rewrite length_app, length_firstn. lia.
Qed.

Lemma split_loop_spec (txt : list ascii) (fuel : nat) :
  forall p q,
    p <= q <= List.length txt -> List.length txt - q <= fuel ->
    match_at txt p = None ->
    (forall j, p < j < q -> match_at txt j = None) ->
    split_at_boundaries (skipn p txt) (split_loop fuel txt p q).
Proof.
  assert (Exit : forall p q,
    p <= q <= List.length txt -> List.length txt <= q ->
    (forall j, p < j < q -> match_at txt j = None) ->
    split_at_boundaries (skipn p txt) [substr txt p (List.length txt)]).
  { intros p q Hpq Hq Hnone.
    assert (q = List.length txt) as -> by lia.
    assert (E : substr txt p (List.length txt) = skipn p txt).
    { unfold substr. apply firstn_all2. rewrite length_skipn. lia. }
    rewrite <- E at 1. apply sab_whole.
    now apply unmatched_no_boundary. }
  induction fuel as [|fuel IH]; intros p q Hpq Hfuel Hp Hnone.
  - simpl. apply (Exit p q); auto; lia.
  - simpl. destruct (Nat.ltb_spec q (List.length txt)) as [Hlt|Hge];
      [|apply (Exit p q); auto].
    destruct (match_at txt q) as [e|] eqn:Hm.
    + pose proof (match_at_forward _ _ _ Hm) as Hfw.
      destruct (Nat.eqb_spec e p) as [->|_]; [lia|].
      assert (Hq : p < q).
      { destruct (Nat.eq_dec p q) as [->|]; [congruence|lia]. }
      pose proof (unmatched_no_boundary txt p q
                    (conj (proj1 Hpq) (Nat.lt_le_incl _ _ Hlt)) Hnone) as Hnb.
      assert (IHe : split_at_boundaries (skipn e txt) (split_loop fuel txt e e)).
      { apply IH; try lia.
        destruct (match_at txt e) as [e'|] eqn:Hme; [|reflexivity].
          exfalso.
          destruct (match_at_sound _ _ _ Hm)
            as (pre & c & w & d & post & E & Eq & Ee & _ & _ & _ & Cd).
          destruct (match_at_sound _ _ _ Hme)
            as (pre' & c' & w' & d' & post' & E' & Eq' & _ & _ & Hw' & Ww' & _).
          assert (N1 : nth_error txt e = Some d).
          { rewrite E. change (pre ++ c :: w ++ d :: post)
              with (pre ++ (c :: w) ++ d :: post).
            rewrite app_assoc. apply nth_error_at.
            rewrite length_app. simpl List.length. lia. }
          destruct w' as [|a w']; [congruence|].
          assert (N2 : nth_error txt e = Some a).
          { rewrite E'. change (pre' ++ c' :: (a :: w') ++ d' :: post')
              with (pre' ++ [c'] ++ a :: w' ++ d' :: post').
            rewrite app_assoc. apply nth_error_at.
            rewrite length_app. simpl List.length. lia. }
          simpl in Ww'. apply andb_true_iff in Ww' as [Sa _].
          apply cap_not_space in Cd. congruence. }
      destruct (match_at_sound _ _ _ Hm)
        as (pre & c & w & d & post & E & Eq & Ee & Sc & Hw & Ww & Cd).
      assert (Ep : skipn p txt = (skipn p pre ++ [c]) ++ w ++ d :: post).
      { rewrite E, skipn_app. replace (p - List.length pre) with 0 by lia.
        simpl. now rewrite <- app_assoc. }
      assert (Es : substr txt p q = skipn p pre ++ [c]).
      { unfold substr. rewrite Ep.
        rewrite firstn_app.
        replace (q - p) with (List.length (skipn p pre ++ [c]))
          by (rewrite length_app, length_skipn; simpl; lia).
        rewrite firstn_all, Nat.sub_diag. simpl. now rewrite app_nil_r. }
      assert (Ee' : skipn e txt = d :: post).
      { rewrite E. change (pre ++ c :: w ++ d :: post)
          with (pre ++ (c :: w) ++ d :: post).
        rewrite app_assoc. apply skipn_at.
        rewrite length_app. simpl List.length. lia. }
      rewrite Ep, Es. rewrite Es in Hnb. rewrite Ee' in IHe.
      now apply sab_cut.
    + apply IH; try lia; auto.
      intros j Hj. destruct (Nat.eq_dec j q) as [->|]; [exact Hm|].
      apply Hnone. lia.
Qed.

(** The pieces that [split] returns are the text cut at its boundaries. *)
Lemma split_spec (txt : list ascii) :
  split_at_boundaries txt (split txt).
Proof.
  destruct txt as [|a txt].
  - simpl. apply sab_whole. intros (pre & c & w & d & post & E & _).
    destruct pre; discriminate.
  - unfold split.
    apply (split_loop_spec (a :: txt) _ 0 0); simpl; try lia; auto.
Qed.

End SplitterFacts.

(** ** The splitting rule determines the pieces; [trim] *)

Section SplitUnique.

Import Splitter.
Local Open Scope nat_scope.

Lemma forallb_last (f : ascii -> bool) (l : list ascii) (x : ascii) :
  forallb f (l ++ [x]) = true -> f x = true.
Proof.
  rewrite forallb_app. simpl. intros H.
  apply andb_true_iff in H as [_ H]. now rewrite andb_true_r in H.
Qed.

(** A piece that ends at a boundary cannot go on past it and still be free
    of boundaries. *)
Lemma first_cut_is_shortest (p1 : list ascii) (c1 : ascii) (w1 : list ascii)
      (d1 : ascii) (r1 l X p2 : list ascii) (c2 : ascii) :
  is_stop c1 = true -> w1 <> [] -> forallb is_space w1 = true ->
  is_cap d1 = true ->
  (p1 ++ [c1]) ++ l = p2 ++ [c2] -> is_stop c2 = true ->
  ~ has_boundary (p2 ++ [c2]) ->
  w1 ++ d1 :: r1 = l ++ X ->
  l = [].
Proof.
  intros Sc1 Hw1 Ww1 Cd1 El Sc2 Hnb Ex.
  destruct l as [|y l0]; [reflexivity|]. exfalso.
  destruct (@exists_last _ (y :: l0)) as (l' & x & Hl); [discriminate|].
  rewrite Hl in *. clear Hl y l0.
  assert (x = c2) as ->.
  { rewrite app_assoc in El. now apply app_inj_tail in El. }
  apply app_eq_app in Ex as (m & [[E1 E2] | [E1 E2]]).
  - (* the extension lies within the whitespace *)
    rewrite E1, forallb_app in Ww1. apply andb_true_iff in Ww1 as [Ww1 _].
    apply forallb_last in Ww1. apply stop_not_space in Sc2. congruence.
  - destruct m as [|z m].
    + rewrite app_nil_r in E1. rewrite <- E1 in Ww1.
      apply forallb_last in Ww1. apply stop_not_space in Sc2. congruence.
    + simpl in E2. injection E2 as <- _.
      apply Hnb. rewrite <- El, E1.
      exists p1, c1, w1, d1, m. rewrite <- !app_assoc. simpl. auto.
Qed.

Lemma space_prefix_unique (w1 : list ascii) :
  forall (w2 : list ascii) (d1 d2 : ascii) (r1 r2 : list ascii),
    forallb is_space w1 = true -> forallb is_space w2 = true ->
    is_space d1 = false -> is_space d2 = false ->
    w1 ++ d1 :: r1 = w2 ++ d2 :: r2 ->
    w1 = w2 /\ d1 :: r1 = d2 :: r2.
Proof.
  induction w1 as [|a w1 IH]; intros [|b w2] d1 d2 r1 r2 H1 H2 D1 D2 E;
    simpl in *.
  - auto.
  - injection E as -> _. apply andb_true_iff in H2 as [H2 _]. congruence.
  - injection E as -> _. apply andb_true_iff in H1 as [H1 _]. congruence.
  - injection E as -> E.
    apply andb_true_iff in H1 as [_ H1]. apply andb_true_iff in H2 as [_ H2].
    destruct (IH _ _ _ _ _ H1 H2 D1 D2 E) as [-> ?]. auto.
Qed.

(** The rule determines the pieces. *)
Lemma split_at_boundaries_unique (t : list ascii) (ps1 ps2 : list (list ascii)) :
  split_at_boundaries t ps1 -> split_at_boundaries t ps2 -> ps1 = ps2.
Proof.
  intros H1. revert ps2.
  induction H1 as [t Hnb | p1 c1 w1 d1 r1 ps1 Hnb1 Sc1 Hw1 Ww1 Cd1 _ IH];
    intros ps2 H2.
  - inversion H2 as [t' Hnb' | p2 c2 w2 d2 r2 ps2' Hnb2 Sc2 Hw2 Ww2 Cd2 H2' Et];
      subst; [reflexivity|].
    exfalso. apply Hnb. exists p2, c2, w2, d2, r2.
    rewrite <- app_assoc. simpl. auto.
  - inversion H2 as [t' Hnb' Et | p2 c2 w2 d2 r2 ps2' Hnb2 Sc2 Hw2 Ww2 Cd2 H2' Et];
      subst.
    + exfalso. apply Hnb'. exists p1, c1, w1, d1, r1.
      rewrite <- app_assoc. simpl. auto.
    + assert (Ep : p1 ++ [c1] = p2 ++ [c2] /\ w1 ++ d1 :: r1 = w2 ++ d2 :: r2).
      { apply app_eq_app in Et as (l & [[E1 E2] | [E1 E2]]).
        - assert (l = []) as ->.
          { eapply (first_cut_is_shortest p1 c1 w1 d1 r1 l _ p2 c2); eauto. }
          rewrite app_nil_r in E1. simpl in E2. auto.
        - assert (l = []) as ->.
          { eapply (first_cut_is_shortest p2 c2 w2 d2 r2 l _ p1 c1); eauto. }
          rewrite app_nil_r in E1. simpl in E2. auto. }
      destruct Ep as [Ep Ew]. rewrite Ep. f_equal.
      apply space_prefix_unique in Ew as [_ Er];
        auto using cap_not_space.
      apply IH. now rewrite Er.
Qed.

Lemma trim_start_spec (l : list ascii) :
  exists a, l = a ++ trim_start l /\ forallb is_space a = true
            /\ (forall c r, trim_start l = c :: r -> is_space c = false).
Proof.
  induction l as [|x l (a & E & A & H)]; simpl.
  - exists []. repeat split; auto. discriminate.
  - destruct (is_space x) eqn:Hx.
    + exists (x :: a). simpl. rewrite Hx, A, <- E. auto.
    + exists []. repeat split; auto. intros c r [= <- _]. exact Hx.
Qed.

(** [trim] removes the whitespace at both ends and nothing else. *)
Lemma trim_spec (l : list ascii) :
  exists a b,
    l = a ++ trim l ++ b
    /\ forallb is_space a = true /\ forallb is_space b = true
    /\ (forall c r, trim l = c :: r -> is_space c = false)
    /\ (forall r c, trim l = r ++ [c] -> is_space c = false).
Proof.
  unfold trim.
  destruct (trim_start_spec l) as (a & Ea & Wa & Ha).
  destruct (trim_start_spec (rev (trim_start l))) as (b & Eb & Wb & Hb).
  set (m := trim_start (rev (trim_start l))) in *.
  assert (Em : trim_start l = rev m ++ rev b).
  { rewrite <- rev_app_distr, <- Eb, rev_involutive. reflexivity. }
  exists a, (rev b). repeat split; auto.
  - rewrite Ea at 1. now rewrite Em.
  - rewrite forallb_forall in *. intros x Hx. apply Wb. now apply in_rev.
  - intros c r E. destruct (rev m) as [|c' r'] eqn:Hm; [discriminate|].
    injection E as -> ->. apply (Ha c (r ++ rev b)). rewrite Em. reflexivity.
  - intros r c E. apply (Hb c (rev r)).
    rewrite <- (rev_involutive m), E, rev_app_distr. reflexivity.
Qed.

End SplitUnique.

(** ** Rounding to a binary64 number *)

Section RoundingFacts.

Import Binary64.

(** Linear arithmetic is kept away from the powers of two. *)
Ltac hide_pow2 :=
  repeat match goal with
         | H : context [pow2 ?e] |- _ =>
             let p := fresh "p" in set (p := pow2 e) in *; clearbody p
         | |- context [pow2 ?e] =>
             let p := fresh "p" in set (p := pow2 e) in *; clearbody p
         end.

Lemma pow2_pos (e : Z) : (0 < pow2 e)%Q.
Proof. apply Qpower_0_lt. reflexivity. Qed.

Lemma pow2_add (a b : Z) : (pow2 (a + b) == pow2 a * pow2 b)%Q.
Proof. apply Qpower_plus. discriminate. Qed.

Lemma pow2_le (a b : Z) : a <= b -> (pow2 a <= pow2 b)%Q.
Proof. intros H. apply Qpower_le_compat_l; [exact H | discriminate]. Qed.

Lemma pow2_lt (a b : Z) : a < b -> (pow2 a < pow2 b)%Q.
Proof. intros H. apply Qpower_lt_compat_l; [exact H | reflexivity]. Qed.

Lemma pow2_Z (e : Z) : 0 <= e -> (pow2 e == inject_Z (2 ^ e))%Q.
Proof. intros H. unfold pow2. now rewrite Zpower_Qpower. Qed.

Lemma pow2_succ (e : Z) : (pow2 (e + 1) == 2 * pow2 e)%Q.
Proof. rewrite pow2_add. change (pow2 1) with 2%Q. ring. Qed.

Lemma Z_log2_bounds (p : Z) :
  0 < p -> (pow2 (Z.log2 p) <= inject_Z p /\ inject_Z p < pow2 (Z.log2 p + 1))%Q.
Proof.
  intros Hp. destruct (Z.log2_spec p Hp) as [H1 H2].
  pose proof (Z.log2_nonneg p) as H0.
  rewrite !pow2_Z by lia. split.
  - now rewrite <- Zle_Qle.
  - rewrite <- Zlt_Qlt. now rewrite <- Z.add_1_r in H2.
Qed.

Lemma ilog2_spec (x : Q) :
  (0 < x)%Q -> (pow2 (ilog2 x) <= x /\ x < pow2 (ilog2 x + 1))%Q.
Proof.
  intros Hx. unfold ilog2.
  destruct x as [p q]. cbn [Qnum Qden].
  assert (Hp : 0 < p) by (unfold Qlt in Hx; simpl in Hx; lia).
  destruct (Z_log2_bounds p Hp) as [P1 P2].
  destruct (Z_log2_bounds (Z.pos q) eq_refl) as [Q1 Q2].
  set (la := Z.log2 p) in *. set (lb := Z.log2 (Z.pos q)) in *.
  assert (Ex : (p # q == inject_Z p / inject_Z (Z.pos q))%Q) by apply Qmake_Qdiv.
  assert (Hq : (0 < inject_Z (Z.pos q))%Q) by reflexivity.
  pose proof (pow2_pos la) as A0. pose proof (pow2_pos lb) as B0.
  pose proof (pow2_succ la) as A1. pose proof (pow2_succ lb) as B1.
  assert (Ea : (pow2 (la - lb) * pow2 lb == pow2 la)%Q).
  { rewrite <- pow2_add. now replace (la - lb + lb) with la by lia. }
  pose proof (pow2_pos (la - lb)) as C0.
  assert (Exq : ((p # q) * inject_Z (Z.pos q) == inject_Z p)%Q).
  { rewrite Ex. field. intros E. rewrite E in Hq. discriminate. }
  destruct (Qle_bool (pow2 (la - lb)) (p # q)) eqn:E.
  - apply Qle_bool_iff in E. split; [exact E|].
    rewrite pow2_succ.
    apply Qnot_le_lt. intros H.
    assert (2 * pow2 (la - lb) * inject_Z (Z.pos q) <= (p # q) * inject_Z (Z.pos q))%Q
      by (apply Qmult_le_compat_r; [exact H | now apply Qlt_le_weak]).
    assert (2 * pow2 (la - lb) * pow2 lb <= 2 * pow2 (la - lb) * inject_Z (Z.pos q))%Q
      by (apply Qmult_le_l; [lra | exact Q1]).
    lra.
  - assert (E' : (p # q < pow2 (la - lb))%Q).
    { apply Qnot_le_lt. intros H. apply Qle_bool_iff in H. congruence. }
    clear E. split.
    + assert (Eh : (pow2 (la - lb - 1 + 1) == pow2 (la - lb))%Q)
        by (now replace (la - lb - 1 + 1) with (la - lb) by lia).
      rewrite pow2_succ in Eh.
      apply Qnot_lt_le. intros H.
      assert ((p # q) * inject_Z (Z.pos q) < pow2 (la - lb - 1) * inject_Z (Z.pos q))%Q
        by (apply Qmult_lt_compat_r; assumption).
      pose proof (pow2_pos (la - lb - 1)) as D0.
      assert (pow2 (la - lb - 1) * inject_Z (Z.pos q) <= pow2 (la - lb - 1) * pow2 (lb + 1))%Q
        by (apply Qmult_le_l; [exact D0 | now apply Qlt_le_weak]).
      assert (pow2 (la - lb - 1) * pow2 (lb + 1) == pow2 la)%Q.
      { rewrite <- pow2_add. now replace (la - lb - 1 + (lb + 1)) with la by lia. }
      lra.
    + now replace (la - lb - 1 + 1) with (la - lb) by lia.
Qed.

Lemma pow2_inv (e : Z) : (pow2 (- e) == / pow2 e)%Q.
Proof. apply Qpower_opp. Qed.

Lemma pow2_lt_inv (a b : Z) : (pow2 a < pow2 b)%Q -> a < b.
Proof. intros H. apply (Qpower_lt_compat_l_inv 2); [exact H | reflexivity]. Qed.

Lemma div_pow2 (x : Q) (e : Z) : (x / pow2 e == x * pow2 (- e))%Q.
Proof. unfold Qdiv. now rewrite pow2_inv. Qed.

Lemma mul_div_pow2 (x : Q) (e : Z) : (x / pow2 e * pow2 e == x)%Q.
Proof.
  field. intros E. pose proof (pow2_pos e) as H. rewrite E in H. discriminate.
Qed.

Lemma round_even_cases (x : Q) :
  round_even x = Qfloor x \/ round_even x = Qfloor x + 1.
Proof.
  unfold round_even.
  destruct (_ ?= _)%Q; [destruct (Z.even _)| |]; auto.
Qed.

Lemma round_even_bounds (x : Q) :
  (x - (1 # 2) <= inject_Z (round_even x) /\ inject_Z (round_even x) <= x + (1 # 2))%Q.
Proof.
  unfold round_even.
  pose proof (Qfloor_le x) as H1. pose proof (Qlt_floor x) as H2.
  rewrite inject_Z_plus in H2. change (inject_Z 1) with 1%Q in H2.
  destruct (x - inject_Z (Qfloor x) ?= 1 # 2)%Q eqn:E.
  - apply Qeq_alt in E.
    destruct (Z.even (Qfloor x)); rewrite ?inject_Z_plus;
      change (inject_Z 1) with 1%Q; split; lra.
  - apply Qlt_alt in E. split; lra.
  - apply Qgt_alt in E. rewrite inject_Z_plus.
    change (inject_Z 1) with 1%Q. split; lra.
Qed.

Lemma round_even_ge (x : Q) (j : Z) :
  (inject_Z j <= x)%Q -> j <= round_even x.
Proof.
  intros H. apply Qfloor_resp_le in H. rewrite Qfloor_Z in H.
  destruct (round_even_cases x); lia.
Qed.

Lemma round_even_le (x : Q) (j : Z) :
  (x <= inject_Z j)%Q -> round_even x <= j.
Proof.
  intros H. unfold round_even.
  pose proof (Qfloor_le x) as H1. pose proof (Qlt_floor x) as H2.
  assert (Hf : Qfloor x <= j).
  { apply Qfloor_resp_le in H. now rewrite Qfloor_Z in H. }
  destruct (Z.eq_dec (Qfloor x) j) as [E|E].
  - assert (Ex : (x - inject_Z (Qfloor x) == 0)%Q) by (rewrite E in *; lra).
    rewrite Ex. simpl. lia.
  - destruct (_ ?= _)%Q; [destruct (Z.even _)| |]; lia.
Qed.

Lemma ulp_pos (x : Q) : (0 < ulp x)%Q.
Proof. apply pow2_pos. Qed.

Lemma Qabs_of_nonneg (x : Q) : (0 <= x)%Q -> Qabs x = x.
Proof.
  destruct x as [[|p|p] q]; try reflexivity.
  intros H. unfold Qle in H. simpl in H. lia.
Qed.

(** The binade of a number that is not subnormal. *)
Lemma exponent_normal (x : Q) :
  (pow2 (-1022) <= x)%Q ->
  -1022 <= exponent x
  /\ (pow2 (exponent x) <= x /\ x < pow2 (exponent x + 1))%Q.
Proof.
  intros H. pose proof (pow2_pos (-1022)) as H0.
  assert (Hx : (0 < x)%Q) by lra.
  unfold exponent. rewrite Qabs_of_nonneg by lra.
  apply Qle_bool_iff in H. rewrite H. apply Qle_bool_iff in H.
  destruct (ilog2_spec x Hx) as [L1 L2].
  assert (-1022 < ilog2 x + 1) by (apply pow2_lt_inv; lra).
  repeat split; try assumption. lia.
Qed.

Lemma exponent_subnormal (x : Q) :
  (0 <= x)%Q -> (x < pow2 (-1022))%Q -> exponent x = -1022.
Proof.
  intros H0 H. unfold exponent. rewrite Qabs_of_nonneg by assumption.
  destruct (Qle_bool _ _) eqn:E; [|reflexivity].
  apply Qle_bool_iff in E. lra.
Qed.

Lemma exponent_min (x : Q) : -1022 <= exponent x.
Proof.
  unfold exponent. destruct (Qle_bool _ _) eqn:E; [|lia].
  apply Qle_bool_iff in E.
  pose proof (pow2_pos (-1022)).
  assert (Hx : (0 < Qabs x)%Q) by lra.
  destruct (ilog2_spec _ Hx) as [L1 L2].
  assert (-1022 < ilog2 (Qabs x) + 1) by (apply pow2_lt_inv; lra).
  lia.
Qed.

(** A number in [0, 2^(e+1)), [e] being its exponent: the quotient by the
    gap is below [2^53]. *)
Lemma below_next_binade (x : Q) :
  (0 <= x)%Q -> (x < pow2 (exponent x + 1))%Q.
Proof.
  intros H0. destruct (Qlt_le_dec x (pow2 (-1022))) as [H|H].
  - rewrite (exponent_subnormal x H0 H).
    pose proof (pow2_lt (-1022) (-1022 + 1) ltac:(lia)). lra.
  - now apply exponent_normal.
Qed.

Lemma ulp_times (x : Q) : (ulp x * pow2 53 == pow2 (exponent x + 1))%Q.
Proof.
  unfold ulp. rewrite <- pow2_add.
  now replace (exponent x - 52 + 53) with (exponent x + 1) by lia.
Qed.

Lemma quotient_bound (x : Q) :
  (0 <= x)%Q -> (0 <= x / ulp x /\ x / ulp x < pow2 53)%Q.
Proof.
  intros H0. pose proof (ulp_pos x) as Hu. split.
  - apply Qle_shift_div_l; [assumption | lra].
  - apply Qlt_shift_div_r; [assumption|].
    rewrite Qmult_comm, ulp_times. now apply below_next_binade.
Qed.

Lemma nearest_nonneg (x : Q) : (0 <= x)%Q -> (0 <= nearest x)%Q.
Proof.
  intros H0. unfold nearest. pose proof (ulp_pos x).
  apply Qmult_le_0_compat; [|lra].
  change 0%Q with (inject_Z 0). rewrite <- Zle_Qle.
  apply round_even_ge. now apply quotient_bound.
Qed.

(** Rounding moves a number by at most half the gap. *)
Lemma nearest_error (x : Q) :
  (x - ulp x * (1 # 2) <= nearest x /\ nearest x <= x + ulp x * (1 # 2))%Q.
Proof.
  unfold nearest. pose proof (ulp_pos x) as Hu.
  destruct (round_even_bounds (x / ulp x)) as [H1 H2].
  pose proof (mul_div_pow2 x (exponent x - 52)) as E. fold (ulp x) in E.
  set (a := (x / ulp x)%Q) in *. set (u := ulp x) in *.
  set (r := inject_Z (round_even a)) in *.
  apply (Qmult_le_compat_r _ _ u) in H1; [|lra].
  apply (Qmult_le_compat_r _ _ u) in H2; [|lra].
  clearbody r a u.
  assert (E1 : ((a - (1 # 2)) * u == x - u * (1 # 2))%Q) by (rewrite <- E; ring).
  assert (E2 : ((a + (1 # 2)) * u == x + u * (1 # 2))%Q) by (rewrite <- E; ring).
  split; lra.
Qed.

(** For a number that is not subnormal the gap is at most [2^-52] times the
    number. *)
Lemma ulp_relative (x : Q) :
  (pow2 (-1022) <= x)%Q -> (ulp x <= x * pow2 (-52))%Q.
Proof.
  intros H. destruct (exponent_normal x H) as (_ & L1 & _).
  unfold ulp. replace (exponent x - 52) with (exponent x + -52) by lia.
  rewrite pow2_add. apply Qmult_le_compat_r; [assumption|].
  apply Qlt_le_weak, pow2_pos.
Qed.

(** Below [2^53] every integer is a multiple of the gap, so rounding does
    not cross an integer. *)
Lemma integer_multiple (x : Q) :
  (0 <= x)%Q -> (x < pow2 53)%Q ->
  exists N : Z, 0 < N /\ (/ ulp x == inject_Z N)%Q.
Proof.
  intros H0 H.
  assert (He : exponent x <= 52).
  { destruct (Qlt_le_dec x (pow2 (-1022))) as [Hs|Hn].
    - rewrite (exponent_subnormal x H0 Hs). lia.
    - destruct (exponent_normal x Hn) as (_ & L1 & _).
      assert (exponent x < 53) by (apply pow2_lt_inv; lra). lia. }
  exists (2 ^ (52 - exponent x)). split; [apply Z.pow_pos_nonneg; lia|].
  unfold ulp. rewrite <- pow2_inv, <- pow2_Z by lia.
  now replace (- (exponent x - 52)) with (52 - exponent x) by lia.
Qed.

Lemma nearest_ge_integer (x : Q) (k : Z) :
  (0 <= x)%Q -> (x < pow2 53)%Q ->
  (inject_Z k <= x)%Q -> (inject_Z k <= nearest x)%Q.
Proof.
  intros H0 H Hk. destruct (integer_multiple x H0 H) as (N & HN & EN).
  pose proof (ulp_pos x) as Hu.
  assert (Hm : k * N <= round_even (x / ulp x)).
  { apply round_even_ge. rewrite inject_Z_mult. unfold Qdiv. rewrite EN.
    apply Qmult_le_compat_r; [assumption|].
    change 0%Q with (inject_Z 0). rewrite <- Zle_Qle. lia. }
  unfold nearest. rewrite Zle_Qle, inject_Z_mult in Hm.
  apply (Qmult_le_compat_r _ _ (ulp x)) in Hm; [|lra].
  assert (E : (inject_Z k * inject_Z N * ulp x == inject_Z k)%Q).
  { rewrite <- EN. field. lra. }
  lra.
Qed.

Lemma nearest_le_integer (x : Q) (k : Z) :
  (0 <= x)%Q -> (x < pow2 53)%Q ->
  (x <= inject_Z k)%Q -> (nearest x <= inject_Z k)%Q.
Proof.
  intros H0 H Hk. destruct (integer_multiple x H0 H) as (N & HN & EN).
  pose proof (ulp_pos x) as Hu.
  assert (Hm : round_even (x / ulp x) <= k * N).
  { apply round_even_le. rewrite inject_Z_mult. unfold Qdiv. rewrite EN.
    apply Qmult_le_compat_r; [assumption|].
    change 0%Q with (inject_Z 0). rewrite <- Zle_Qle. lia. }
  unfold nearest. rewrite Zle_Qle, inject_Z_mult in Hm.
  apply (Qmult_le_compat_r _ _ (ulp x)) in Hm; [|lra].
  assert (E : (inject_Z k * inject_Z N * ulp x == inject_Z k)%Q).
  { rewrite <- EN. field. lra. }
  lra.
Qed.

Lemma below_bounds (x : Q) :
  (0 <= x)%Q -> (0 <= below x /\ below x <= x)%Q.
Proof.
  intros H0. unfold below. pose proof (ulp_pos x) as Hu.
  destruct (quotient_bound x H0) as [Q0 _].
  pose proof (Qfloor_le (x / ulp x)) as Hf.
  pose proof (mul_div_pow2 x (exponent x - 52)) as E. fold (ulp x) in E.
  split.
  - apply Qmult_le_0_compat; [|lra].
    change 0%Q with (inject_Z 0). rewrite <- Zle_Qle.
    apply Qfloor_resp_le in Q0. exact Q0.
  - apply (Qmult_le_compat_r _ _ (ulp x)) in Hf; lra.
Qed.

(** The greatest binary64 number below 1 is [1 - 2^-53]. *)
Lemma below_unit (x : Q) :
  (0 <= x)%Q -> (x < 1)%Q -> (below x <= 1 - pow2 (-53))%Q.
Proof.
  intros H0 H1. destruct (Qlt_le_dec x (pow2 (-1022))) as [Hs|Hn].
  - destruct (below_bounds x H0) as [_ Hb].
    pose proof (pow2_le (-1022) (-1) ltac:(lia)) as P1.
    pose proof (pow2_le (-53) (-1) ltac:(lia)) as P2.
    change (pow2 (-1)) with (1 # 2)%Q in *. lra.
  - destruct (exponent_normal x Hn) as (_ & L1 & L2).
    assert (He : exponent x < 0) by (apply pow2_lt_inv; change (pow2 0) with 1%Q; lra).
    destruct (quotient_bound x H0) as [_ Q1].
    assert (Hm : Qfloor (x / ulp x) <= 2 ^ 53 - 1).
    { assert (Qfloor (x / ulp x) < 2 ^ 53); [|lia].
      rewrite Zlt_Qlt, <- pow2_Z by lia.
      eapply Qle_lt_trans; [apply Qfloor_le | exact Q1]. }
    unfold below. pose proof (ulp_pos x) as Hu.
    rewrite Zle_Qle in Hm.
    apply (Qmult_le_compat_r _ _ (ulp x)) in Hm; [|lra].
    assert (Hu' : (ulp x <= pow2 (-53))%Q) by (apply pow2_le; lia).
    assert (E : (inject_Z (2 ^ 53 - 1) * pow2 (-53) == 1 - pow2 (-53))%Q)
      by reflexivity.
    assert (inject_Z (2 ^ 53 - 1) * ulp x <= inject_Z (2 ^ 53 - 1) * pow2 (-53))%Q.
    { apply Qmult_le_l; [reflexivity | assumption]. }
    lra.
Qed.

Lemma Qfloor_interval (x : Q) (k : Z) :
  Qfloor x = k <-> (inject_Z k <= x /\ x < inject_Z (k + 1))%Q.
Proof.
  split.
  - intros <-. split; [apply Qfloor_le | apply Qlt_floor].
  - intros [Hk Hk1].
    apply Qfloor_resp_le in Hk. rewrite Qfloor_Z in Hk.
    pose proof (Qle_lt_trans _ _ _ (Qfloor_le x) Hk1) as H.
    rewrite <- Zlt_Qlt in H. lia.
Qed.

(** The error of rounding, for subnormal numbers and the others at once. *)
Lemma nearest_relative (x : Q) :
  (0 <= x)%Q ->
  (x - x * pow2 (-53) - pow2 (-1075) <= nearest x
   /\ nearest x <= x + x * pow2 (-53) + pow2 (-1075))%Q.
Proof.
  intros H0. destruct (nearest_error x) as [E1 E2].
  assert (Hu : (ulp x * (1 # 2) <= x * pow2 (-53) + pow2 (-1075))%Q).
  { destruct (Qlt_le_dec x (pow2 (-1022))) as [Hs|Hn].
    - unfold ulp. rewrite (exponent_subnormal x H0 Hs).
      assert (E : (pow2 (-1022 - 52) * (1 # 2) == pow2 (-1075))%Q) by reflexivity.
      pose proof (pow2_pos (-53)) as P.
      assert (0 <= x * pow2 (-53))%Q
        by (apply Qmult_le_0_compat; [assumption | now apply Qlt_le_weak]).
      lra.
    - pose proof (ulp_relative x Hn) as Hr.
      assert (E : (x * pow2 (-52) * (1 # 2) == x * pow2 (-53))%Q).
      { assert (E' : (pow2 (-52) == 2 * pow2 (-53))%Q) by reflexivity.
        rewrite E'. ring. }
      pose proof (pow2_pos (-1075)). hide_pow2. lra. }
  hide_pow2. split; lra.
Qed.

(** A product with a number of [0,1) stays below the other factor after
    rounding. *)
Lemma nearest_product_below (r : Q) (n : Z) :
  (0 <= r)%Q -> (r <= 1 - pow2 (-53))%Q -> 0 < n ->
  (nearest (r * inject_Z n) < inject_Z n)%Q.
Proof.
  intros H0 H1 Hn.
  assert (HN : (1 <= inject_Z n)%Q)
    by (change 1%Q with (inject_Z 1); rewrite <- Zle_Qle; lia).
  set (N := inject_Z n) in *. clearbody N.
  assert (Hx : (0 <= r * N)%Q) by (apply Qmult_le_0_compat; lra).
  destruct (nearest_relative (r * N) Hx) as [_ E].
  pose proof (pow2_pos (-53)) as P.
  assert (Hs : (pow2 (-1075) < pow2 (-53) * pow2 (-53))%Q) by reflexivity.
  assert (Hp : (pow2 (-53) * pow2 (-53) * 1 <= pow2 (-53) * pow2 (-53) * N)%Q).
  { apply Qmult_le_l; [|assumption].
    rewrite <- (Qmult_0_l (pow2 (-53))). now apply Qmult_lt_compat_r. }
  assert (Hr : (r * N <= (1 - pow2 (-53)) * N)%Q)
    by (apply Qmult_le_compat_r; lra).
  assert (Hr' : (r * N * (1 + pow2 (-53)) <= (1 - pow2 (-53)) * N * (1 + pow2 (-53)))%Q)
    by (apply Qmult_le_compat_r; lra).
  hide_pow2.
  assert (E1 : (r * N * (1 + p) == r * N + r * N * p)%Q) by ring.
  assert (E2 : ((1 - p) * N * (1 + p) == N - p * p * N)%Q) by ring.
  set (x := (r * N)%Q) in *. set (y := (x * p)%Q) in *.
  set (z := (p * p * N)%Q) in *. set (pp := (p * p)%Q) in *.
  clearbody pp z y x. lra.
Qed.

Lemma index_in_range (q : Q) (n : Z) :
  (0 <= q)%Q -> (q < 1)%Q -> 0 < n ->
  0 <= Qfloor (times (below q) (inject_Z n)) < n.
Proof.
  intros H0 H1 Hn. destruct (below_bounds q H0) as [B0 _].
  pose proof (below_unit q H0 H1) as B1.
  assert (HN : (0 <= inject_Z n)%Q)
    by (change 0%Q with (inject_Z 0); rewrite <- Zle_Qle; lia).
  unfold times. split.
  - change 0 with (Qfloor 0). apply Qfloor_resp_le, nearest_nonneg.
    now apply Qmult_le_0_compat.
  - rewrite Zlt_Qlt. eapply Qle_lt_trans; [apply Qfloor_le|].
    now apply nearest_product_below.
Qed.

(** The index is the integer part of the exact product, unless the product
    is within [2^-53] times the next integer of that integer. *)
Lemma index_exact (r : Q) (n k : Z) :
  (0 <= r)%Q -> (r < 1)%Q -> 0 < n <= 2 ^ 53 ->
  (inject_Z k <= r * inject_Z n)%Q ->
  (r * inject_Z n < inject_Z (k + 1) * (1 - pow2 (-53)))%Q ->
  Qfloor (times r (inject_Z n)) = k.
Proof.
  intros H0 H1 Hn Hk Hk1.
  assert (HN : (0 < inject_Z n)%Q)
    by (change 0%Q with (inject_Z 0); rewrite <- Zlt_Qlt; lia).
  assert (HN' : (inject_Z n <= pow2 53)%Q)
    by (rewrite pow2_Z by lia; rewrite <- Zle_Qle; lia).
  assert (Hx : (0 <= r * inject_Z n)%Q)
    by (apply Qmult_le_0_compat; lra).
  assert (Hx' : (r * inject_Z n < pow2 53)%Q).
  { apply Qlt_le_trans with (1 * inject_Z n)%Q; [|lra].
    now apply Qmult_lt_compat_r. }
  unfold times. apply Qfloor_interval. split.
  - now apply nearest_ge_integer.
  - destruct (nearest_relative _ Hx) as [_ E].
    pose proof (pow2_pos (-53)) as P.
    assert (P1 : (pow2 (-53) < 1)%Q) by reflexivity.
    assert (Hs : (pow2 (-1075) < pow2 (-53) * pow2 (-53))%Q) by reflexivity.
    assert (Hk0 : 0 <= k).
    { destruct (Z.lt_ge_cases k 0) as [Hneg|]; [|assumption]. exfalso.
      assert (Hz : (inject_Z (k + 1) <= 0)%Q)
        by (change 0%Q with (inject_Z 0); rewrite <- Zle_Qle; lia).
      assert (inject_Z (k + 1) * (1 - pow2 (-53)) <= 0 * (1 - pow2 (-53)))%Q
        by (apply Qmult_le_compat_r; lra).
      lra. }
    assert (HK : (1 <= inject_Z (k + 1))%Q)
      by (change 1%Q with (inject_Z 1); rewrite <- Zle_Qle; lia).
    set (K := inject_Z (k + 1)) in *. set (x := (r * inject_Z n)%Q) in *.
    clearbody K x.
    assert (Hp : (pow2 (-53) * pow2 (-53) * 1 <= pow2 (-53) * pow2 (-53) * K)%Q).
    { apply Qmult_le_l; [|assumption].
      rewrite <- (Qmult_0_l (pow2 (-53))). now apply Qmult_lt_compat_r. }
    assert (Hr' : (x * (1 + pow2 (-53)) <= K * (1 - pow2 (-53)) * (1 + pow2 (-53)))%Q)
      by (apply Qmult_le_compat_r; lra).
    hide_pow2.
    assert (E1 : (x * (1 + p) == x + x * p)%Q) by ring.
    assert (E2 : (K * (1 - p) * (1 + p) == K - p * p * K)%Q) by ring.
    set (y := (x * p)%Q) in *.
    set (z := (p * p * K)%Q) in *. set (pp := (p * p)%Q) in *.
    clearbody pp z y. lra.
Qed.

Lemma index_sound (r : Q) (n k : Z) :
  (0 <= r)%Q -> (r < 1)%Q -> 0 < n <= 2 ^ 53 ->
  Qfloor (times r (inject_Z n)) = k ->
  (inject_Z k * (1 - pow2 (-53)) <= r * inject_Z n
   /\ r * inject_Z n < inject_Z (k + 1))%Q.
Proof.
  intros H0 H1 Hn Hk.
  assert (HN : (0 < inject_Z n)%Q)
    by (change 0%Q with (inject_Z 0); rewrite <- Zlt_Qlt; lia).
  assert (HN' : (inject_Z n <= pow2 53)%Q)
    by (rewrite pow2_Z by lia; rewrite <- Zle_Qle; lia).
  assert (Hx : (0 <= r * inject_Z n)%Q)
    by (apply Qmult_le_0_compat; lra).
  assert (Hx' : (r * inject_Z n < pow2 53)%Q).
  { apply Qlt_le_trans with (1 * inject_Z n)%Q; [|lra].
    now apply Qmult_lt_compat_r. }
  unfold times in Hk. apply Qfloor_interval in Hk as [K1 K2].
  split.
  - destruct (Z.le_gt_cases k 0) as [Hk0|Hk0].
    + assert (Hz : (inject_Z k <= 0)%Q)
        by (change 0%Q with (inject_Z 0); rewrite <- Zle_Qle; lia).
      assert (P1 : (0 <= 1 - pow2 (-53))%Q) by (apply Qlt_le_weak; reflexivity).
      assert (inject_Z k * (1 - pow2 (-53)) <= 0 * (1 - pow2 (-53)))%Q
        by (apply Qmult_le_compat_r; assumption).
      lra.
    + destruct (nearest_relative _ Hx) as [_ E].
      pose proof (pow2_pos (-53)) as P.
      assert (P1 : (pow2 (-53) < 1)%Q) by reflexivity.
      assert (Hs : (pow2 (-1075) < pow2 (-53) * pow2 (-53))%Q) by reflexivity.
      assert (HK : (1 <= inject_Z k)%Q)
        by (change 1%Q with (inject_Z 1); rewrite <- Zle_Qle; lia).
      set (K := inject_Z k) in *. set (x := (r * inject_Z n)%Q) in *.
      clearbody K x.
      assert (Hp : (pow2 (-53) * pow2 (-53) * 1 <= pow2 (-53) * pow2 (-53) * K)%Q).
      { apply Qmult_le_l; [|assumption].
        rewrite <- (Qmult_0_l (pow2 (-53))). now apply Qmult_lt_compat_r. }
      (* K <= x (1 + p) + s and s <= p p K give K (1 - p p) <= x (1 + p) *)
      apply Qnot_lt_le. intros Hlt.
      assert (Hr' : (x * (1 + pow2 (-53)) <= K * (1 - pow2 (-53)) * (1 + pow2 (-53)))%Q)
        by (apply Qmult_le_compat_r; lra).
      hide_pow2.
      assert (E1 : (x * (1 + p) == x + x * p)%Q) by ring.
      assert (E2 : (K * (1 - p) * (1 + p) == K - p * p * K)%Q) by ring.
      set (y := (x * p)%Q) in *.
      set (z := (p * p * K)%Q) in *. set (pp := (p * p)%Q) in *.
      clearbody pp z y. lra.
  - apply Qnot_le_lt. intros Hge.
    pose proof (nearest_ge_integer _ (k + 1) Hx Hx' Hge). lra.
Qed.

(** A binary64 number is a whole multiple of the gap around it. *)
Lemma number_quotient (x : Q) :
  (0 <= x)%Q -> number x -> exists j : Z, (x / ulp x == inject_Z j)%Q.
Proof.
  intros H0 (m & e & Hm & He & Ex).
  pose proof (pow2_pos e) as Pe.
  assert (Hlt : (x < pow2 (53 + e))%Q).
  { rewrite Ex, pow2_add. apply Qmult_lt_compat_r; [assumption|].
    rewrite pow2_Z by lia. rewrite <- Zlt_Qlt. lia. }
  assert (Hge : exponent x - 52 <= e).
  { destruct (Qlt_le_dec x (pow2 (-1022))) as [Hs|Hn].
    - rewrite (exponent_subnormal x H0 Hs). lia.
    - destruct (exponent_normal x Hn) as (_ & L1 & _).
      assert (exponent x < 53 + e)
        by (apply pow2_lt_inv; eapply Qle_lt_trans; eassumption).
      lia. }
  unfold ulp. set (g := exponent x - 52) in *. clearbody g.
  exists (m * 2 ^ (e - g)).
  rewrite inject_Z_mult, <- pow2_Z by lia.
  rewrite div_pow2, Ex, <- Qmult_assoc, <- pow2_add.
  now replace (e + - g) with (e - g) by lia.
Qed.

Lemma round_even_Z (j : Z) : round_even (inject_Z j) = j.
Proof.
  unfold round_even. rewrite Qfloor_Z.
  assert (E : (inject_Z j - inject_Z j == 0)%Q) by ring.
  rewrite E. reflexivity.
Qed.

Lemma round_even_comp (x y : Q) : (x == y)%Q -> round_even x = round_even y.
Proof.
  intros E. unfold round_even. rewrite (Qfloor_comp _ _ E).
  assert (E' : (x - inject_Z (Qfloor y) == y - inject_Z (Qfloor y))%Q)
    by (now rewrite E).
  now rewrite E'.
Qed.

(** Rounding leaves a binary64 number as it is. *)
Lemma nearest_number (x : Q) :
  (0 <= x)%Q -> number x -> (nearest x == x)%Q.
Proof.
  intros H0 Hx. destruct (number_quotient x H0 Hx) as (j & Ej).
  unfold nearest. rewrite (round_even_comp _ _ Ej), round_even_Z, <- Ej.
  apply mul_div_pow2.
Qed.

Lemma below_number (x : Q) :
  (0 <= x)%Q -> number x -> (below x == x)%Q.
Proof.
  intros H0 Hx. destruct (number_quotient x H0 Hx) as (j & Ej).
  unfold below. rewrite (Qfloor_comp _ _ Ej), Qfloor_Z, <- Ej.
  apply mul_div_pow2.
Qed.

Lemma below_is_number (x : Q) : (0 <= x)%Q -> number (below x).
Proof.
  intros H0. destruct (quotient_bound x H0) as [Q0 Q1].
  exists (Qfloor (x / ulp x)), (exponent x - 52). split; [|split].
  - assert (0 <= Qfloor (x / ulp x)) by (apply Qfloor_resp_le in Q0; exact Q0).
    assert (Qfloor (x / ulp x) < 2 ^ 53); [|lia].
    rewrite Zlt_Qlt, <- pow2_Z by lia.
    eapply Qle_lt_trans; [apply Qfloor_le | exact Q1].
  - pose proof (exponent_min x). lia.
  - reflexivity.
Qed.

Lemma nearest_is_number (x : Q) : (0 <= x)%Q -> number (nearest x).
Proof.
  intros H0. destruct (quotient_bound x H0) as [Q0 Q1].
  assert (Hm : 0 <= round_even (x / ulp x) <= 2 ^ 53).
  { split.
    - now apply round_even_ge.
    - apply round_even_le. rewrite <- pow2_Z by lia. now apply Qlt_le_weak. }
  destruct (Z.eq_dec (round_even (x / ulp x)) (2 ^ 53)) as [E|E].
  - exists 1, (exponent x + 1). split; [|split].
    + reflexivity.
    + pose proof (exponent_min x). lia.
    + unfold nearest. rewrite E, <- pow2_Z by lia.
      rewrite Qmult_comm, ulp_times. ring.
  - exists (round_even (x / ulp x)), (exponent x - 52). split; [|split].
    + lia.
    + pose proof (exponent_min x). lia.
    + reflexivity.
Qed.

End RoundingFacts.

(** ** Random indices and the sampling loop *)

Section RandomFacts.

Lemma at_index_in_range {A : Type} (a : list A) (i : Z) :
  0 <= i < Z.of_nat (List.length a) ->
  exists x, at_index a i = Some x /\ In x a.
Proof.
  intros Hi. unfold at_index.
  destruct (Z.ltb_spec i 0); [lia|].
  destruct (nth_error a (Z.to_nat i)) as [x|] eqn:E.
  - exists x. split; [reflexivity|]. eapply nth_error_In; eauto.
  - apply nth_error_None in E. lia.
Qed.

(** What [Math.random] returns is a Number of [0,1), and any such Number
    can be returned. *)
Lemma Math_random_unit (w : World) :
  unit_draws w ->
  Binary64.number (fst (Math_random w))
  /\ (0 <= fst (Math_random w))%Q
  /\ (fst (Math_random w) <= 1 - Binary64.pow2 (-53))%Q.
Proof.
  intros Hw. destruct (Hw 0%nat) as [H0 H1]. cbn [Math_random fst].
  split; [now apply below_is_number|]. split.
  - now apply below_bounds.
  - now apply below_unit.
Qed.

Lemma Math_random_any (r : Q) (w : World) :
  Binary64.number r -> (0 <= r)%Q -> draws w 0%nat = r ->
  (fst (Math_random w) == r)%Q.
Proof.
  intros Hr H0 <-. cbn [Math_random fst]. now apply below_number.
Qed.

(** The index that the [i]-th call to come of [Math.random] selects. *)
Lemma random_below_after (n i : nat) (w : World) :
  fst (random_below (Z.of_nat n) (after_draws i w)) = drawn_index w n i.
Proof.
  unfold random_below, bind, Math_random, ret, after_draws, drawn_index.
  cbn [fst draws]. now rewrite Nat.add_0_r.
Qed.

(** The product is rounded before [Math.floor] is taken: a draw whose
    exact product with 7 is below 4 can select the index 4. *)
Lemma rounded_product_reaches_next_index :
  let r := (2573485501354569 # 4503599627370496)%Q in
  let w := mkWorld (fun _ => r) (fun _ => 0) (fun _ => "") in
  (fst (Math_random w) == r)%Q
  /\ Qfloor (r * inject_Z 7) = 3
  /\ fst (random_below 7 w) = 4.
Proof. vm_compute. repeat split. Qed.

Lemma pick_loop_spec (sentences : list string) (count : nat) :
  forall (out : list (option string)) (w : World),
    pick_loop sentences count out w
    = (out ++ map (fun i => at_index sentences
                              (drawn_index w (List.length sentences) i))
                  (seq 0 count),
       after_draws count w).
Proof.
  induction count as [|count IH]; intros out w.
  - simpl. rewrite app_nil_r. unfold ret, after_draws. f_equal.
    destruct w; reflexivity.
  - cbn [pick_loop].
    cbv beta iota zeta delta [bind random_below Math_random ret].
    rewrite IH. unfold push. rewrite <- app_assoc. simpl.
    rewrite <- seq_shift, map_map. reflexivity.
Qed.

End RandomFacts.

(** ** Distractors and items *)

Section AssessmentFacts.

Lemma distractor_loop_spec (candidates : list string) (count : nat) :
  forall (acc : list string) (w : World),
    distractor_loop candidates count acc w
    = (acc ++ map (drawn_distractor candidates w) (seq 0 count),
       after_draws count w).
Proof.
  induction count as [|count IH]; intros acc w.
  - simpl. rewrite app_nil_r. unfold ret, after_draws. f_equal.
    destruct w; reflexivity.
  - cbn [distractor_loop].
    cbv beta iota zeta delta [bind random_below Math_random ret].
    rewrite IH. unfold push. rewrite <- app_assoc. simpl.
    rewrite <- seq_shift, map_map. reflexivity.
Qed.

Lemma makeDistractors_spec (seed : option string) (pool : list string)
      (w : World) :
  makeDistractors seed pool 3 w
  = ([shorten seed 80;
      drawn_distractor (candidates_of seed pool) w 0;
      drawn_distractor (candidates_of seed pool) w 1;
      drawn_distractor (candidates_of seed pool) w 2],
     after_draws 3 w).
Proof.
  unfold makeDistractors, bind, ret. fold (candidates_of seed pool).
  change (Z.to_nat 3) with 3%nat.
  rewrite distractor_loop_spec. reflexivity.
Qed.

Lemma no_candidates (seed : option string) (pool : list string) :
  (forall p, In p pool -> seed = Some p) -> candidates_of seed pool = [].
Proof.
  intros H. unfold candidates_of.
  replace (filter (fun p => differs p seed) pool) with (@nil string);
    [reflexivity|].
  symmetry. induction pool as [|p pool IH]; [reflexivity|]. simpl.
  rewrite IH by (intros q Hq; apply H; now right).
  rewrite (H p (or_introl eq_refl)). simpl. now rewrite String.eqb_refl.
Qed.

Lemma drawn_distractor_nil (w : World) (i : nat) :
  drawn_distractor [] w i = fallback.
Proof.
  unfold drawn_distractor, at_index.
  destruct (_ <? 0); [reflexivity|].
  destruct (Z.to_nat _); reflexivity.
Qed.

Lemma make_item_spec (type : string) (sentences : list string)
      (s : option string) (i : Z) (w : World) :
  item_of type s (fst (make_item type sentences s i w)).
Proof.
  unfold item_of, make_item.
  destruct (type =? "mcq")%string.
  - unfold bind. rewrite makeDistractors_spec.
    cbv beta iota zeta delta [Date_now ret fst].
    split; [reflexivity|]. do 3 eexists. split; reflexivity.
  - unfold bind, Date_now, ret. simpl. repeat split.
Qed.

Lemma map_items_spec (type : string) (sentences : list string)
      (picks : list (option string)) :
  forall (i : Z) (w : World),
    Forall2 (item_of type) picks (fst (map_items type sentences picks i w)).
Proof.
  induction picks as [|s picks IH]; intros i w.
  - constructor.
  - cbn [map_items]. cbv beta iota zeta delta [bind ret].
    pose proof (make_item_spec type sentences s i w) as Hit.
    destruct (make_item type sentences s i w) as [it w1].
    pose proof (IH (i + 1) w1) as Hits.
    destruct (map_items type sentences picks (i + 1) w1) as [its w2].
    simpl in *. now constructor.
Qed.

(** The assessment is put in front of the list; nothing else but the
    route changes. *)
Lemma generateAssessmentFromDoc_found (id : Z) (type : string) (limit : Z)
      (st : AppState) (w : World) (doc : Document) :
  find_doc id st = Some doc ->
  exists a,
    let st' := fst (generateAssessmentFromDoc id type limit st w) in
    assessments st' = a :: assessments st
    /\ documents st' = documents st
    /\ profile st' = profile st
    /\ progressData st' = progressData st
    /\ docId a = id
    /\ Forall2 (item_of type)
               (fst (pickSentences (Some (extractSentences (doc_text doc)))
                                   limit w))
               (items a).
Proof.
  intros Hdoc. unfold generateAssessmentFromDoc.
  rewrite Hdoc. cbv beta iota zeta delta [bind Date_now Date_iso ret].
  destruct (pickSentences _ limit w) as [picks w1].
  pose proof (map_items_spec type (extractSentences (doc_text doc)) picks 0 w1)
    as Hits.
  destruct (map_items _ _ picks 0 w1) as [its w2].
  eexists. cbn [fst assessments documents profile progressData docId items].
  repeat split. exact Hits.
Qed.

End AssessmentFacts.

(** ** Picks, the cap at 80 and array updates *)

Section MoreFacts.

Lemma extractSentences_nonempty (text s : string) :
  In s (extractSentences text) -> s <> "".
Proof.
  unfold extractSentences. destruct (negb (truthy text)); [intros []|].
  intros H. apply filter_In in H as [_ H]. now apply truthy_nonempty.
Qed.

(** Every pick is a string, and not the empty one. *)
Lemma picks_are_sentences (text : string) (limit : Z) (w : World) :
  unit_draws w ->
  Forall (fun x => exists s, x = Some s /\ s <> "")
         (fst (pickSentences (Some (extractSentences text)) limit w)).
Proof.
  intros Hdraws. unfold pickSentences.
  destruct (extractSentences text) as [|s0 l] eqn:E.
  - repeat constructor. eexists. split; [reflexivity | discriminate].
  - rewrite pick_loop_spec. simpl fst.
    apply Forall_forall. intros x Hx.
    apply in_map_iff in Hx as (i & <- & _).
    destruct (at_index_in_range (s0 :: l)
                (drawn_index w (List.length (s0 :: l)) i)) as (s & Es & Hs).
    { apply index_in_range; try apply Hdraws. simpl List.length. lia. }
    exists s. split; [exact Es|].
    apply (extractSentences_nonempty text). now rewrite E.
Qed.

Lemma shorten_80 (s : string) :
  s <> "" ->
  shorten (Some s) 80
  = if len s <=? 80 then s else (substring 0 80 s ++ "...")%string.
Proof.
  intros Hs. apply truthy_nonempty in Hs. unfold shorten. rewrite Hs.
  simpl negb. cbv iota.
  destruct (Z.leb_spec (len s) 80) as [|Hlt]; [reflexivity|].
  unfold slice. change (0 <? 0) with false. change (80 <? 0) with false.
  cbv iota. f_equal. f_equal; lia.
Qed.

Lemma copy_points (l : list ProgressPoint) :
  map (fun p => {| month := month p; score := score p |}) l = l.
Proof.
  induction l as [|[m s] l IH]; simpl; [reflexivity|]. now rewrite IH.
Qed.

Lemma length_set_at {A : Type} (a : list A) :
  forall (i : nat) (x : A), List.length (set_at a i x) = List.length a.
Proof.
  induction a as [|y a IH]; intros [|i] x; simpl; auto.
Qed.

Lemma nth_error_set_at_eq {A : Type} (a : list A) :
  forall (i : nat) (x : A),
    (i < List.length a)%nat -> nth_error (set_at a i x) i = Some x.
Proof.
  induction a as [|y a IH]; intros [|i] x H; simpl in *; try lia; auto.
  apply IH. lia.
Qed.

Lemma nth_error_set_at_ne {A : Type} (a : list A) :
  forall (i j : nat) (x : A),
    j <> i -> nth_error (set_at a i x) j = nth_error a j.
Proof.
  induction a as [|y a IH]; intros [|i] [|j] x H; simpl; auto; try congruence.
Qed.

Lemma Forall_set_at {A : Type} (P : A -> Prop) (a : list A) :
  forall (i : nat) (x : A), Forall P a -> P x -> Forall P (set_at a i x).
Proof.
  induction a as [|y a IH]; intros [|i] x Ha Hx; simpl; auto;
    inversion Ha; subst; constructor; auto.
Qed.

End MoreFacts.

(** ** The suggestions and the table of rules *)

Section SuggestionFacts.

Import Rules.

Lemma truthy_eqb (s : string) : truthy s = negb (s =? "")%string.
Proof. destruct s; reflexivity. Qed.

Lemma india_is_truthy (s : string) :
  truthy s && (toLowerCase s =? "india")%string
  = (toLowerCase s =? "india")%string.
Proof. destruct s; reflexivity. Qed.

Lemma count_at_least_3 (n : nat) : (3 <=? Z.of_nat n) = (3 <=? n)%nat.
Proof.
  destruct (Z.leb_spec 3 (Z.of_nat n)), (Nat.leb_spec 3 n); try reflexivity; lia.
Qed.

(** The handler computes what the table of rules says. *)
Lemma suggestions_as_rules (st : AppState) :
  generateAISuggestions st
  = suggest (profile st) (List.length (documents st)).
Proof.
  unfold generateAISuggestions, suggest, fired, all, push.
  cbn [filter holds].
  rewrite india_is_truthy, count_at_least_3, !truthy_eqb, negb_involutive.
  destruct (includes (toLowerCase (qualification (profile st))) "bachelor"
            || includes (toLowerCase (qualification (profile st))) "undergrad");
    destruct (includes (toLowerCase (syllabus (profile st))) "math"
              || includes (toLowerCase (syllabus (profile st))) "calculus");
    destruct (toLowerCase (nationality (profile st)) =? "india")%string;
    destruct (syllabus (profile st) =? "")%string;
    destruct (3 <=? List.length (documents st))%nat;
    destruct (learningStyle (profile st) =? "")%string;
    reflexivity.
Qed.

End SuggestionFacts.

(** ** One rule starting to hold *)

Section Toggle.

Import Rules.

Ltac field_cases field :=
  unfold updateProfileField;
  destruct (field =? "name")%string;
  [|destruct (field =? "institution")%string;
    [|destruct (field =? "syllabus")%string;
      [|destruct (field =? "qualification")%string;
        [|destruct (field =? "nationality")%string;
          [|destruct (field =? "learningStyle")%string]]]]].

Ltac split_cases :=
  repeat match goal with
         | |- context [if ?b then _ else _] => destruct b
         end.

Lemma toggle_one_rule (p : Profile) (n : nat) (k : rule)
      (field value : string) :
  let p' := updateProfileField field value p in
  holds k p n = false ->
  holds k p' n = true ->
  (forall k', rival k = Some k' -> holds k' p n = false) ->
  fired all p n = fired (before k) p n ++ fired (after k) p n
  /\ fired all p' n
     = fired (before k) p n ++ advice k p' :: fired (after k) p n.
Proof.
  destruct p as [a b c d e f]. intros p'. subst p'.
  field_cases field; destruct k;
    cbn [holds syllabus qualification nationality learningStyle name institution];
    intros H1 H2 H3; try congruence;
    unfold fired, all, before, after;
    cbn [filter holds advice syllabus qualification nationality learningStyle].
  - (* syllabus, rule 2 *)
    specialize (H3 R4 eq_refl). cbn [holds syllabus] in H3.
    assert (Hv : (value =? "")%string = false).
    { destruct value; [discriminate H2 | reflexivity]. }
    rewrite H1, H2, H3, Hv. split_cases; split; reflexivity.
  - (* syllabus, rule 4 *)
    specialize (H3 R2 eq_refl). cbn [holds syllabus] in H3.
    apply String.eqb_eq in H2. subst value.
    rewrite H1, H3. cbn [toLowerCase includes prefix orb String.eqb].
    split_cases; split; reflexivity.
  - (* qualification, rule 1 *)
    rewrite H1, H2. split_cases; split; reflexivity.
  - (* nationality, rule 3 *)
    rewrite H1, H2. split_cases; split; reflexivity.
  - (* learningStyle, rule 6 *)
    rewrite H1, H2. split_cases; split; reflexivity.
Qed.

End Toggle.

Lemma demoWorld_unit_draws : unit_draws demoWorld.
Proof.
  intros i. unfold demoWorld, draws, Qle, Qlt. cbn [Qnum Qden].
  pose proof (Nat.mod_upper_bound i 7 ltac:(discriminate)). lia.
Qed.

(** * The claims *)

(** C1.  For a non-empty list of sentences and a limit [>= 0], with draws
    in [0,1), [pickSentences] returns exactly [limit] elements, each an
    element of the list: the [i]-th one is the sentence at the index that
    [Math.floor(Math.random() * length)] gives on the [i]-th draw alone, so
    picks are independent and a sentence may come again.  For a length [n]
    and the Number [r] that [Math.random] returns, that index is the integer
    part [k] of the exact product [r * n] whenever the product is below
    [(k + 1) * (1 - 2^-53)], and an index [k] is selected only when the
    product lies from [k * (1 - 2^-53)] to [k + 1]: every index has the
    draws of an interval of width [1/n], up to the rounding of the binary64
    product at the ends of the interval.  For an empty or a missing list
    the result is the one placeholder, whatever the limit. *)
Theorem pickSentences_spec :
  (forall (sentences : list string) (limit : Z) (w : World),
      sentences <> [] -> 0 <= limit -> unit_draws w ->
      let out := fst (pickSentences (Some sentences) limit w) in
      let n := Z.of_nat (List.length sentences) in
      Z.of_nat (List.length out) = limit
      /\ Forall (fun x => exists s, x = Some s /\ In s sentences) out
      /\ (forall i : nat,
             (i < Z.to_nat limit)%nat ->
             nth_error out i
             = Some (at_index sentences
                       (fst (random_below n (after_draws i w))))))
  /\ (forall (n k : Z) (w : World),
         0 < n <= 2 ^ 53 -> unit_draws w ->
         let x := (fst (Math_random w) * inject_Z n)%Q in
         ((inject_Z k <= x
           /\ x < inject_Z (k + 1) * (1 - Binary64.pow2 (-53)))%Q ->
          fst (random_below n w) = k)
         /\ (fst (random_below n w) = k ->
             (inject_Z k * (1 - Binary64.pow2 (-53)) <= x
              /\ x < inject_Z (k + 1))%Q))
  /\ (forall (limit : Z) (w : World),
         fst (pickSentences (Some []) limit w)
         = [Some "No content to generate from."]
         /\ fst (pickSentences None limit w)
            = [Some "No content to generate from."]).
Proof.
  split; [|split; [|intros; split; reflexivity]].
  - intros sentences limit w Hne Hlim Hdraws out n.
    assert (E : out = map (fun i => at_index sentences
                                      (drawn_index w (List.length sentences) i))
                          (seq 0 (Z.to_nat limit))).
    { subst out. unfold pickSentences.
      destruct sentences as [|s l]; [congruence|].
      rewrite pick_loop_spec. reflexivity. }
    rewrite E. repeat split.
    + rewrite length_map, length_seq. lia.
    + apply Forall_forall. intros x Hx. apply in_map_iff in Hx as (i & <- & _).
      apply at_index_in_range. apply index_in_range; try apply Hdraws.
      destruct sentences; [congruence | simpl List.length; lia].
    + intros i Hi. subst n. rewrite random_below_after.
      rewrite nth_error_map, nth_error_seq.
      destruct (Nat.ltb_spec i (Z.to_nat limit)); [reflexivity | lia].
  - intros n k w Hn Hdraws x.
    destruct (Math_random_unit w Hdraws) as (_ & R0 & R1).
    assert (R1' : (fst (Math_random w) < 1)%Q).
    { eapply Qle_lt_trans; [exact R1 | reflexivity]. }
    assert (E : fst (random_below n w)
                = Qfloor (Binary64.times (fst (Math_random w)) (inject_Z n)))
      by reflexivity.
    rewrite E. split.
    + intros [H1 H2]. now apply index_exact.
    + intros H. now apply index_sound.
Qed.

Lemma pickSentences_spec_witness :
  (let out := fst (pickSentences (Some ["a"; "b"; "c"]) 5 demoWorld) in
   let n := Z.of_nat (List.length ["a"; "b"; "c"]) in
   Z.of_nat (List.length out) = 5
   /\ Forall (fun x => exists s, x = Some s /\ In s ["a"; "b"; "c"]) out
   /\ (forall i : nat,
          (i < Z.to_nat 5)%nat ->
          nth_error out i
          = Some (at_index ["a"; "b"; "c"]
                    (fst (random_below n (after_draws i demoWorld))))))
  /\ (let w := after_draws 3 demoWorld in
      let x := (fst (Math_random w) * inject_Z 3)%Q in
      fst (random_below 3 w) = 1
      /\ (inject_Z 1 * (1 - Binary64.pow2 (-53)) <= x /\ x < inject_Z (1 + 1))%Q).
Proof.
  split.
  - apply (proj1 pickSentences_spec ["a"; "b"; "c"] 5 demoWorld).
    + discriminate.
    + lia.
    + exact demoWorld_unit_draws.
  - cbv zeta.
    assert (Hn : 0 < 3 <= 2 ^ 53) by (split; [reflexivity | discriminate]).
    assert (Hw : unit_draws (after_draws 3 demoWorld))
      by exact (fun i => demoWorld_unit_draws (3 + i)%nat).
    assert (H : fst (random_below 3 (after_draws 3 demoWorld)) = 1).
    { apply (proj1 (proj1 (proj2 pickSentences_spec) 3 1
                      (after_draws 3 demoWorld) Hn Hw)).
      split; vm_compute; [discriminate | reflexivity]. }
    split; [exact H|].
    exact (proj2 (proj1 (proj2 pickSentences_spec) 3 1
                    (after_draws 3 demoWorld) Hn Hw) H).
Defined.

(** C2.  Every multiple-choice item that [generateAssessmentFromDoc] makes
    has its answer equal to the first of its choices, and that first choice
    is the seed sentence cut by [shorten] at 80 characters: the sentence
    itself when it has at most 80, else its first 80 followed by the
    ellipsis.  The items follow the picks one for one. *)
Theorem mcq_answer_is_first_choice (id : Z) (type : string) (limit : Z)
        (st : AppState) (w : World) (doc : Document) :
  find_doc id st = Some doc ->
  unit_draws w ->
  exists a,
    assessments (fst (generateAssessmentFromDoc id type limit st w))
    = a :: assessments st
    /\ Forall2
         (fun seed it =>
            item_type it = "mcq" ->
            exists s rest,
              seed = Some s
              /\ choices it = Some (shorten seed 80 :: rest)
              /\ answer it = Some (shorten seed 80)
              /\ shorten seed 80
                 = if len s <=? 80 then s
                   else (substring 0 80 s ++ "...")%string)
         (fst (pickSentences (Some (extractSentences (doc_text doc))) limit w))
         (items a)
    /\ (type = "mcq" -> Forall (fun it => item_type it = "mcq") (items a)).
Proof.
  intros Hdoc Hdraws.
  destruct (generateAssessmentFromDoc_found id type limit st w doc Hdoc)
    as (a & Ha & _ & _ & _ & _ & Hits).
  exists a. split; [exact Ha|].
  pose proof (picks_are_sentences (doc_text doc) limit w Hdraws) as Hp.
  split.
  - revert Hp. induction Hits as [|seed it picks its Hit _ IH]; intros Hp.
    + constructor.
    + inversion Hp as [|? ? (s & -> & Hs) Hp']; subst.
      constructor; [|now apply IH].
      intros Hty. unfold item_of in Hit.
      destruct (type =? "mcq")%string.
      * destruct Hit as (_ & d1 & d2 & d3 & Hc & Han).
        exists s, [d1; d2; d3]. repeat split; auto. now apply shorten_80.
      * destruct Hit as (Hshort & _). congruence.
  - intros ->. clear Hp.
    induction Hits as [|seed it picks its Hit _ IH]; constructor; auto.
    apply Hit.
Qed.

Lemma mcq_answer_is_first_choice_witness :
  exists a,
    assessments (fst (generateAssessmentFromDoc 7 "mcq" 4 demoState demoWorld))
    = a :: assessments demoState
    /\ Forall2
         (fun seed it =>
            item_type it = "mcq" ->
            exists s rest,
              seed = Some s
              /\ choices it = Some (shorten seed 80 :: rest)
              /\ answer it = Some (shorten seed 80)
              /\ shorten seed 80
                 = if len s <=? 80 then s
                   else (substring 0 80 s ++ "...")%string)
         (fst (pickSentences
                 (Some (extractSentences
                          "Hello world. This Is Fine! Next one?")) 4 demoWorld))
         (items a)
    /\ ("mcq" = "mcq" -> Forall (fun it => item_type it = "mcq") (items a)).
Proof.
  apply (mcq_answer_is_first_choice 7 "mcq" 4 demoState demoWorld
           (mkDocument 7 "notes.txt" 36 "Hello world. This Is Fine! Next one?"
                       "2024-01-01T00:00:00.000Z" false)).
  - reflexivity.
  - exact demoWorld_unit_draws.
Defined.

(** C3, as amended.  Changing one profile field so that rule [k] goes from
    not holding to holding puts the string of rule [k] into the suggestions
    at its place in rule order and keeps every string that was there, in
    order, provided the other rule on the same field (rules 2 and 4 both
    read the syllabus) was not holding; when no rule held before, the
    message about the missing profile data gives way to the string of rule
    [k]. *)
Theorem suggestions_single_rule_toggle (st : AppState) (k : Rules.rule)
        (field value : string) :
  let n := List.length (documents st) in
  let p' := updateProfileField field value (profile st) in
  let l1 := Rules.fired (Rules.before k) (profile st) n in
  let l2 := Rules.fired (Rules.after k) (profile st) n in
  Rules.holds k (profile st) n = false ->
  Rules.holds k p' n = true ->
  (forall k', Rules.rival k = Some k' -> Rules.holds k' (profile st) n = false) ->
  generateAISuggestions (set_profile p' st) = l1 ++ Rules.advice k p' :: l2
  /\ (generateAISuggestions st = l1 ++ l2
      \/ (l1 ++ l2 = [] /\ generateAISuggestions st = [Advice.no_data])).
Proof.
  intros n p' l1 l2 H1 H2 H3. subst n p' l1 l2.
  destruct st as [r p docs ass pd]. cbn [profile documents] in *.
  destruct (toggle_one_rule p (List.length docs) k field value H1 H2 H3)
    as (E & E').
  rewrite !suggestions_as_rules. unfold Rules.suggest.
  cbn [set_profile profile documents]. rewrite E, E'. split.
  - destruct (Rules.fired (Rules.before k) p (List.length docs)); reflexivity.
  - destruct (_ ++ _); [right | left]; auto.
Qed.

Lemma suggestions_single_rule_toggle_witness :
  generateAISuggestions
    (set_profile (updateProfileField "qualification" "Bachelor of Science"
                                     (profile demoState)) demoState)
  = [] ++ Advice.depth :: [Advice.upload]
  /\ (generateAISuggestions demoState = [] ++ [Advice.upload]
      \/ ([] ++ [Advice.upload] = []
          /\ generateAISuggestions demoState = [Advice.no_data])).
Proof.
  apply (suggestions_single_rule_toggle demoState Rules.R1 "qualification"
           "Bachelor of Science").
  - reflexivity.
  - reflexivity.
  - intros k' H. discriminate H.
Defined.

(** C3 as written fails.  With the empty profile the suggestions hold the
    advice to upload a syllabus; setting the syllabus to a text with "math"
    in it makes rule 2 hold and takes that advice away.  With a syllabus
    that no rule reacts to, the message about the missing profile data is
    the whole output, and it goes when rule 1 starts to hold. *)
Lemma suggestions_toggle_removes_advice :
  let st := initialState in
  let st' := set_profile (updateProfileField "syllabus" "math" (profile st)) st in
  let su := set_profile (updateProfileField "syllabus" "physics" (profile st)) st in
  let su' := set_profile (updateProfileField "qualification" "bachelor" (profile su)) su in
  (Rules.holds Rules.R2 (profile st) 0 = false
   /\ Rules.holds Rules.R2 (profile st') 0 = true
   /\ In Advice.upload (generateAISuggestions st)
   /\ ~ In Advice.upload (generateAISuggestions st'))
  /\ (Rules.holds Rules.R1 (profile su) 0 = false
      /\ Rules.holds Rules.R1 (profile su') 0 = true
      /\ In Advice.no_data (generateAISuggestions su)
      /\ ~ In Advice.no_data (generateAISuggestions su')).
Proof.
  cbv zeta. split; (split; [reflexivity|]); (split; [reflexivity|]); split.
  - left. reflexivity.
  - intros [H|[]]. discriminate H.
  - left. reflexivity.
  - intros [H|[]]. discriminate H.
Qed.

(** C4, as amended.  For a non-empty string and a cap [n >= 0], the result
    of [shorten] is at most [n + 3] long, and it is the string itself when
    the string is at most [n] long; empty and missing content give the
    placeholder, whatever the cap. *)
Theorem shorten_capped :
  (forall (s : string) (n : Z),
      s <> "" -> 0 <= n ->
      len (shorten (Some s) n) <= n + 3
      /\ (len s <= n -> shorten (Some s) n = s))
  /\ (forall n : Z,
         shorten (Some "") n = "(no content)"
         /\ shorten None n = "(no content)").
Proof.
  split; [|intros n; split; reflexivity].
  intros s n Hs Hn. apply truthy_nonempty in Hs.
  unfold shorten. rewrite Hs. simpl negb. cbv iota. split.
  - destruct (len s <=? n) eqn:E.
    + apply Z.leb_le in E. lia.
    + unfold len at 1. rewrite length_append.
      pose proof (len_slice_prefix s n Hn) as L. unfold len in L at 1.
      simpl String.length. lia.
  - intros H. apply Z.leb_le in H. now rewrite H.
Qed.

Lemma shorten_capped_witness :
  len (shorten (Some "abcdefgh") 5) <= 5 + 3
  /\ (len "abcdefgh" <= 5 -> shorten (Some "abcdefgh") 5 = "abcdefgh").
Proof.
  apply (proj1 shorten_capped "abcdefgh" 5); [discriminate | lia].
Defined.

(** C4 as written fails on the empty string: the placeholder is twelve
    characters long whatever the cap, and it is not the empty string.  It
    fails for a negative cap too, which [slice] counts from the end. *)
Lemma shorten_empty_exceeds_cap :
  (~ (len (shorten (Some "") 0) <= 0 + 3)
   /\ len "" <= 0 /\ shorten (Some "") 0 <> "")
  /\ ~ (len (shorten (Some "abcdef") (-1)) <= -1 + 3).
Proof.
  repeat split.
  - vm_compute. intros H. apply H. reflexivity.
  - vm_compute. discriminate.
  - discriminate.
  - vm_compute. intros H. apply H. reflexivity.
Qed.

(** C5, as amended.  [extractSentences] turns line feeds into spaces, cuts
    the text at every boundary (a mark among [.], [?] and [!], then
    whitespace, then a capital of [A-Z] or a digit of [0-9]) and nowhere
    else, dropping the whitespace of the boundary, trims each piece and
    drops the empty ones.  The pieces are determined by that rule.  On the
    example of the specification the result is the three sentences. *)
Theorem extractSentences_splits_at_boundaries :
  (forall text : string,
      exists pieces : list (list ascii),
        Splitter.split_at_boundaries (chars (replace_newlines text)) pieces
        /\ (forall ps,
               Splitter.split_at_boundaries (chars (replace_newlines text)) ps ->
               ps = pieces)
        /\ extractSentences text
           = filter truthy (map (fun p => str (trim p)) pieces))
  /\ (forall text : string,
         chars (replace_newlines text)
         = map (fun c => if (c =? "010")%char then " "%char else c)
               (chars text))
  /\ (forall l : list ascii,
         exists a b,
           l = a ++ trim l ++ b
           /\ forallb is_space a = true /\ forallb is_space b = true
           /\ (forall c r, trim l = c :: r -> is_space c = false)
           /\ (forall r c, trim l = r ++ [c] -> is_space c = false))
  /\ extractSentences "Hello world. This Is Fine! Next one?"
     = ["Hello world."; "This Is Fine!"; "Next one?"].
Proof.
  split; [|split; [|split; [exact trim_spec | reflexivity]]].
  - intros text.
    exists (Splitter.split (chars (replace_newlines text))).
    split; [apply split_spec|]. split.
    + intros ps Hps.
      exact (split_at_boundaries_unique _ _ _ Hps (split_spec _)).
    + unfold extractSentences. destruct text as [|c text]; [reflexivity|].
      cbn [truthy negb]. rewrite map_map. f_equal.
      apply map_ext. intros p. unfold chars, str.
      now rewrite list_ascii_of_string_of_list_ascii.
  - intros text. induction text as [|c text IH]; [reflexivity|].
    unfold chars in *. simpl. now rewrite IH.
Qed.

(** C5 as written fails.  An accented capital is an uppercase letter, and
    after a mark and a space it makes a boundary in the words of the claim;
    the text is not cut there, and the first sentence returned holds that
    boundary.  A carriage return is a line break; it is not turned into a
    space, and inside a sentence it stays. *)
Lemma extractSentences_keeps_accented_capital :
  let E := ascii_of_nat 201 in
  let CR := ascii_of_nat 13 in
  let first := ("Vu. " ++ String E "cole ouverte.")%string in
  let lines := ("one" ++ String CR "two")%string in
  (AsWritten.is_uppercase E = true
   /\ AsWritten.has_boundary (chars first)
   /\ extractSentences (first ++ " Ici") = [first; "Ici"])
  /\ (AsWritten.is_line_break CR = true
      /\ extractSentences lines = [lines]).
Proof.
  cbv zeta. split; [split; [reflexivity | split; [|reflexivity]]
                   | split; reflexivity].
  exists (chars "Vu"), "."%char, [" "%char], (ascii_of_nat 201),
    (chars "cole ouverte.").
  split; [reflexivity|]. split; [reflexivity|].
  split; [discriminate|]. split; reflexivity.
Qed.

(** C6.  [extractSentences] gives a result for every string (the loop of
    [split] ends: more turns than the length of the text change nothing),
    no element of the result is the empty string, and the result for the
    empty string is the empty list. *)
Theorem extractSentences_total_no_empty :
  (forall text : string,
      exists l : list string,
        extractSentences text = l /\ Forall (fun s => s <> "") l)
  /\ (forall (txt : list ascii) (fuel : nat),
         txt <> [] -> (List.length txt <= fuel)%nat ->
         Splitter.split_loop fuel txt 0 0 = Splitter.split txt)
  /\ extractSentences "" = [].
Proof.
  split; [|split; [|reflexivity]].
  - intros text. eexists. split; [reflexivity|].
    apply Forall_forall. intros s Hs.
    now apply (extractSentences_nonempty text).
  - intros txt fuel Hne Hfuel. destruct txt as [|a txt]; [congruence|].
    unfold Splitter.split. apply split_loop_fuel; lia.
Qed.

Lemma extractSentences_total_no_empty_witness :
  Splitter.split_loop 9 (chars "a. B") 0 0 = Splitter.split (chars "a. B").
Proof.
  apply (proj1 (proj2 extractSentences_total_no_empty) (chars "a. B") 9%nat).
  - discriminate.
  - simpl. lia.
Defined.

(** C7.  [generateAISuggestions] returns the strings of the rules that
    hold, one for each, in the order of the six rules, and the one message
    about the missing profile data when none holds.  For the profile with
    qualification "Bachelor of Science" and nationality "India" and no
    document it returns the advice on depth, on the balance of question
    kinds and on uploading a syllabus, in that order; for the empty profile
    and five documents, the advice on uploading a syllabus and then on
    spaced repetition. *)
Theorem generateAISuggestions_rule_order :
  (forall st : AppState,
      generateAISuggestions st
      = match Rules.fired Rules.all (profile st) (List.length (documents st)) with
        | [] => [Advice.no_data]
        | l => l
        end)
  /\ (forall (r nm inst : string) (ass : list Assessment)
             (pd : list ProgressPoint),
         generateAISuggestions
           (mkState r (mkProfile nm inst "" "Bachelor of Science" "India" "")
                    [] ass pd)
         = [Advice.depth; Advice.balance; Advice.upload])
  /\ (forall (r nm inst : string) (d1 d2 d3 d4 d5 : Document)
             (ass : list Assessment) (pd : list ProgressPoint),
         generateAISuggestions
           (mkState r (mkProfile nm inst "" "" "" "") [d1; d2; d3; d4; d5]
                    ass pd)
         = [Advice.upload; Advice.spaced]).
Proof.
  split; [exact suggestions_as_rules|]. split; intros; reflexivity.
Qed.

(** C8.  For an id that no stored document has, [generateAssessmentFromDoc]
    does nothing: the state it returns is the state it was given
    (assessments, documents, profile, progress data and route alike), and
    it reads neither the random source nor the clock. *)
Theorem generateAssessmentFromDoc_unknown_id (id : Z) (type : string)
        (limit : Z) (st : AppState) (w : World) :
  find_doc id st = None ->
  generateAssessmentFromDoc id type limit st w = (st, w).
Proof.
  intros Hdoc. unfold generateAssessmentFromDoc. now rewrite Hdoc.
Qed.

Lemma generateAssessmentFromDoc_unknown_id_witness :
  generateAssessmentFromDoc 8 "mcq" 4 demoState demoWorld
  = (demoState, demoWorld).
Proof.
  apply (generateAssessmentFromDoc_unknown_id 8 "mcq" 4 demoState demoWorld).
  reflexivity.
Defined.

(** C9.  With draws in [0,1), [markAssessmentProgress] either throws before
    it sets any state, which happens only when there is no progress entry, or
    it replaces the score of one entry by [min(100, score + d)] for a [d]
    from 0 to 19 and leaves the month of that entry, every other entry, the
    assessments, the documents, the profile and the route as they were; so
    scores that are all at most 100 stay so. *)
Theorem markAssessmentProgress_frame (assessmentId : Z) (st : AppState)
        (w : World) :
  unit_draws w ->
  match fst (markAssessmentProgress assessmentId st w) with
  | TypeError => progressData st = []
  | Done st' =>
      route st' = route st
      /\ profile st' = profile st
      /\ documents st' = documents st
      /\ assessments st' = assessments st
      /\ exists (idx : nat) (e : ProgressPoint) (d : Z),
          nth_error (progressData st) idx = Some e
          /\ 0 <= d <= 19
          /\ List.length (progressData st') = List.length (progressData st)
          /\ nth_error (progressData st') idx
             = Some {| month := month e; score := Z.min 100 (score e + d) |}
          /\ (forall j, j <> idx ->
                        nth_error (progressData st') j
                        = nth_error (progressData st) j)
          /\ (Forall (fun p => score p <= 100) (progressData st) ->
              Forall (fun p => score p <= 100) (progressData st'))
  end.
Proof.
  intros Hdraws. unfold markAssessmentProgress.
  rewrite copy_points.
  cbv beta iota zeta delta [bind random_below Math_random ret].
  set (idx := Qfloor (Binary64.times
                        (Binary64.below (draws w 0))
                        (inject_Z (Z.of_nat (List.length (progressData st)))))).
  destruct (progressData st) as [|p0 pd] eqn:Epd.
  - unfold at_index. destruct (idx <? 0); [reflexivity|].
    destruct (Z.to_nat idx); reflexivity.
  - assert (Hidx : 0 <= idx < Z.of_nat (List.length (p0 :: pd))).
    { apply index_in_range; try apply Hdraws. simpl List.length. lia. }
    unfold at_index. destruct (Z.ltb_spec idx 0) as [|_]; [lia|].
    destruct (nth_error (p0 :: pd) (Z.to_nat idx)) as [e|] eqn:He.
    2:{ apply nth_error_None in He. lia. }
    cbn [fst route profile documents assessments progressData].
    repeat split.
    set (d := Qfloor (Binary64.times (Binary64.below (draws w 1))
                                      (inject_Z 20))).
    assert (Hd : 0 <= d < 20).
    { apply index_in_range; try apply Hdraws. lia. }
    exists (Z.to_nat idx), e, d. repeat split; try lia; auto.
    + apply length_set_at.
    + apply nth_error_set_at_eq. lia.
    + intros j Hj. now apply nth_error_set_at_ne.
    + intros Hall. apply Forall_set_at; [assumption|]. simpl. lia.
Qed.

Lemma markAssessmentProgress_frame_witness :
  match fst (markAssessmentProgress 1002 demoState demoWorld) with
  | TypeError => progressData demoState = []
  | Done st' =>
      route st' = route demoState
      /\ profile st' = profile demoState
      /\ documents st' = documents demoState
      /\ assessments st' = assessments demoState
      /\ exists (idx : nat) (e : ProgressPoint) (d : Z),
          nth_error (progressData demoState) idx = Some e
          /\ 0 <= d <= 19
          /\ List.length (progressData st')
             = List.length (progressData demoState)
          /\ nth_error (progressData st') idx
             = Some {| month := month e; score := Z.min 100 (score e + d) |}
          /\ (forall j, j <> idx ->
                        nth_error (progressData st') j
                        = nth_error (progressData demoState) j)
          /\ (Forall (fun p => score p <= 100) (progressData demoState) ->
              Forall (fun p => score p <= 100) (progressData st'))
  end.
Proof.
  apply (markAssessmentProgress_frame 1002 demoState demoWorld).
  exact demoWorld_unit_draws.
Defined.

(** C10.  Whatever the seed, the pool and the world, [makeDistractors]
    with three distractors asked returns four strings, the seed cut at 80
    characters and then three distractors; when the pool holds no sentence
    other than the seed the three are the fallback string.  So the choices
    of every multiple-choice item that [generateAssessmentFromDoc] makes
    are four. *)
Theorem makeDistractors_four_choices :
  (forall (seed : option string) (pool : list string) (w : World),
      exists d1 d2 d3,
        fst (makeDistractors seed pool 3 w) = [shorten seed 80; d1; d2; d3]
        /\ ((forall p, In p pool -> seed = Some p) ->
            d1 = "Review the text for details."
            /\ d2 = "Review the text for details."
            /\ d3 = "Review the text for details."))
  /\ (forall (id : Z) (type : string) (limit : Z) (st : AppState) (w : World)
             (doc : Document),
         find_doc id st = Some doc ->
         exists a,
           assessments (fst (generateAssessmentFromDoc id type limit st w))
           = a :: assessments st
           /\ forall it,
               In it (items a) -> item_type it = "mcq" ->
               exists l, choices it = Some l /\ List.length l = 4%nat).
Proof.
  split.
  - intros seed pool w. rewrite makeDistractors_spec.
    do 3 eexists. split; [reflexivity|].
    intros H. rewrite (no_candidates seed pool H).
    rewrite !drawn_distractor_nil. auto.
  - intros id type limit st w doc Hdoc.
    destruct (generateAssessmentFromDoc_found id type limit st w doc Hdoc)
      as (a & Ha & _ & _ & _ & _ & Hits).
    exists a. split; [exact Ha|].
    intros it Hin Hty.
    induction Hits as [|seed it' picks its Hit _ IH]; [destruct Hin|].
    destruct Hin as [->|Hin]; [|now apply IH].
    unfold item_of in Hit. destruct (type =? "mcq")%string.
    + destruct Hit as (_ & d1 & d2 & d3 & Hc & _).
      eexists. split; [exact Hc | reflexivity].
    + destruct Hit as (Hshort & _). congruence.
Qed.

Lemma makeDistractors_four_choices_witness :
  exists a,
    assessments (fst (generateAssessmentFromDoc 7 "mcq" 4 demoState demoWorld))
    = a :: assessments demoState
    /\ forall it,
        In it (items a) -> item_type it = "mcq" ->
        exists l, choices it = Some l /\ List.length l = 4%nat.
Proof.
  apply (proj2 makeDistractors_four_choices 7 "mcq" 4 demoState demoWorld
           (mkDocument 7 "notes.txt" 36 "Hello world. This Is Fine! Next one?"
                       "2024-01-01T00:00:00.000Z" false)).
  reflexivity.
Defined.

(** * Further properties *)

Section ShortenFacts.

Lemma append_nonempty (s t : string) : t <> "" -> (s ++ t)%string <> "".
Proof. destruct s; simpl; [auto | discriminate]. Qed.

Lemma substring_0_append (a b : string) :
  substring 0 (String.length a) (a ++ b) = a.
Proof.
  induction a as [|c a IH]; simpl.
  - destruct b; reflexivity.
  - now rewrite IH.
Qed.

Lemma shorten_cut (s : string) (n : Z) :
  0 <= n < len s ->
  shorten (Some s) n = (substring 0 (Z.to_nat n) s ++ "...")%string.
Proof.
  intros Hn. unfold shorten.
  destruct s as [|c s]; [unfold len in Hn; simpl in Hn; lia|].
  cbn [truthy negb].
  destruct (Z.leb_spec (len (String c s)) n) as [|_]; [lia|].
  unfold slice. change (0 <? 0) with false. cbv iota.
  destruct (Z.ltb_spec n 0); [lia|].
  f_equal. f_equal; lia.
Qed.

End ShortenFacts.

(** X1.  [shorten] never returns the empty string, whatever the text
    (missing and empty included) and whatever the cap. *)
Theorem shorten_never_empty (text : option string) (n : Z) :
  shorten text n <> "".
Proof.
  unfold shorten.
  destruct (truthy match text with Some t => t | None => "" end) eqn:T;
    cbn [negb]; [|discriminate].
  destruct (_ <=? n).
  - now apply truthy_nonempty.
  - apply append_nonempty. discriminate.
Qed.

(** X2.  When the text is longer than the cap [n >= 0], [shorten] returns
    its first [n] characters followed by the ellipsis: the result is
    exactly [n + 3] long and its part before the ellipsis is a prefix of
    the text. *)
Theorem shorten_keeps_prefix (s : string) (n : Z) :
  0 <= n < len s ->
  shorten (Some s) n = (substring 0 (Z.to_nat n) s ++ "...")%string
  /\ len (shorten (Some s) n) = n + 3
  /\ prefix (substring 0 (Z.to_nat n) s) s = true.
Proof.
  intros Hn. rewrite shorten_cut by assumption. repeat split.
  - unfold len. rewrite length_append, length_substring. unfold len in Hn.
    simpl String.length. lia.
  - clear Hn. generalize (Z.to_nat n). clear n.
    induction s as [|c s IH]; intros [|k]; simpl; auto.
    rewrite IH. now destruct (ascii_dec c c).
Qed.

Lemma shorten_keeps_prefix_witness :
  shorten (Some "abcdefgh") 5 = (substring 0 (Z.to_nat 5) "abcdefgh" ++ "...")%string
  /\ len (shorten (Some "abcdefgh") 5) = 5 + 3
  /\ prefix (substring 0 (Z.to_nat 5) "abcdefgh") "abcdefgh" = true.
Proof.
  apply (shorten_keeps_prefix "abcdefgh" 5). vm_compute. split; [discriminate | reflexivity].
Defined.

(** X3.  For a non-empty text and a cap [n >= 0], cutting twice is
    cutting once. *)
Theorem shorten_idempotent (s : string) (n : Z) :
  s <> "" -> 0 <= n ->
  shorten (Some (shorten (Some s) n)) n = shorten (Some s) n.
Proof.
  intros Hs Hn.
  destruct (Z.le_gt_cases (len s) n) as [Hle|Hgt].
  - assert (E : shorten (Some s) n = s).
    { unfold shorten. apply truthy_nonempty in Hs. rewrite Hs. cbn [negb].
      apply Z.leb_le in Hle. now rewrite Hle. }
    now rewrite !E.
  - rewrite (shorten_cut s n) by lia.
    set (a := substring 0 (Z.to_nat n) s).
    assert (La : String.length a = Z.to_nat n).
    { unfold a. rewrite length_substring. unfold len in Hgt. lia. }
    rewrite shorten_cut.
    + now rewrite <- La, substring_0_append.
    + unfold len. rewrite length_append. simpl String.length. lia.
Qed.

Lemma shorten_idempotent_witness :
  shorten (Some (shorten (Some "abcdefgh") 5)) 5 = shorten (Some "abcdefgh") 5.
Proof.
  apply (shorten_idempotent "abcdefgh" 5); [discriminate | lia].
Defined.

Section SentenceFacts.

Import Splitter.
Local Open Scope nat_scope.

Lemma chars_str (l : list ascii) : chars (str l) = l.
Proof. apply list_ascii_of_string_of_list_ascii. Qed.

Lemma str_chars (s : string) : str (chars s) = s.
Proof. apply string_of_list_ascii_of_string. Qed.

Lemma truthy_str (l : list ascii) : truthy (str l) = negb (match l with [] => true | _ => false end).
Proof. destruct l; reflexivity. Qed.

Lemma extractSentences_pieces (text : string) :
  extractSentences text
  = filter truthy (map (fun p => str (trim p))
                       (split (chars (replace_newlines text)))).
Proof.
  unfold extractSentences. destruct text as [|c text]; [reflexivity|].
  cbn [truthy negb]. rewrite map_map. f_equal.
  apply map_ext. intros p. now rewrite chars_str.
Qed.

Lemma infix_refl (l : list ascii) : infix l l.
Proof. exists [], []. now rewrite app_nil_r. Qed.

Lemma infix_trans (a b c : list ascii) : infix a b -> infix b c -> infix a c.
Proof.
  intros (x & y & ->) (x' & y' & ->). exists (x' ++ x), (y ++ y').
  now rewrite <- !app_assoc.
Qed.

Lemma infix_Forall (P : ascii -> Prop) (a l : list ascii) :
  infix a l -> Forall P l -> Forall P a.
Proof.
  intros (x & y & ->) H. apply Forall_app in H as [_ H].
  now apply Forall_app in H as [H _].
Qed.

Lemma infix_boundary (a l : list ascii) :
  infix a l -> has_boundary a -> has_boundary l.
Proof.
  intros (x & y & ->) (pre & c & w & d & post & -> & H).
  exists (x ++ pre), c, w, d, (post ++ y). split; [|exact H].
  rewrite <- !app_assoc. simpl. rewrite <- !app_assoc. reflexivity.
Qed.

Lemma trim_infix (l : list ascii) : infix (trim l) l.
Proof. destruct (trim_spec l) as (a & b & E & _). now exists a, b. Qed.

Lemma trim_keeps_first (d : ascii) (r : list ascii) :
  is_space d = false -> exists r', trim (d :: r) = d :: r'.
Proof.
  intros Hd. destruct (trim_spec (d :: r)) as (a & b & E & Wa & Wb & _).
  destruct a as [|x a].
  - destruct (trim (d :: r)) as [|y t].
    + simpl in E. subst b. simpl in Wb. rewrite Hd in Wb. discriminate.
    + simpl in E. injection E as <- _. now exists t.
  - simpl in E. injection E as <- _. simpl in Wa. rewrite Hd in Wa. discriminate.
Qed.

Lemma snoc_case (l : list ascii) : l = [] \/ exists l' x, l = l' ++ [x].
Proof.
  induction l as [|x l _] using rev_ind; [now left | right; eauto].
Qed.

Lemma forallb_snoc (f : ascii -> bool) (l : list ascii) (x : ascii) :
  forallb f (l ++ [x]) = true -> f x = true.
Proof.
  rewrite forallb_app. simpl. intros H.
  apply andb_true_iff in H as [_ H]. now rewrite andb_true_r in H.
Qed.

Lemma trim_keeps_last (p : list ascii) (c : ascii) :
  is_space c = false -> exists p', trim (p ++ [c]) = p' ++ [c].
Proof.
  intros Hc. destruct (trim_spec (p ++ [c])) as (a & b & E & Wa & Wb & _).
  destruct (snoc_case b) as [->|(b' & x & ->)].
  - rewrite app_nil_r in E.
    destruct (snoc_case (trim (p ++ [c]))) as [Et|(t & y & Et)]; rewrite Et in *.
    + rewrite app_nil_r in E. subst a. apply forallb_snoc in Wa. congruence.
    + rewrite app_assoc in E. apply app_inj_tail in E as [_ <-]. now exists t.
  - rewrite !app_assoc in E. apply app_inj_tail in E as [_ <-].
    apply forallb_snoc in Wb. congruence.
Qed.

Lemma trim_idempotent (l : list ascii) : trim (trim l) = trim l.
Proof.
  destruct (trim_spec l) as (_ & _ & _ & _ & _ & Hf & Hl).
  destruct (trim_spec (trim l)) as (a & b & E & Wa & Wb & _).
  set (x := trim l) in *.
  assert (a = []) as ->.
  { destruct a as [|c a]; [reflexivity|]. exfalso.
    simpl in Wa. apply andb_true_iff in Wa as [Wc _].
    destruct x as [|c' x']; [discriminate E|].
    simpl in E. injection E as -> _.
    rewrite (Hf c _ eq_refl) in Wc. discriminate. }
  assert (b = []) as ->.
  { destruct (snoc_case b) as [->|(b' & c & ->)]; [reflexivity|]. exfalso.
    apply forallb_snoc in Wb. simpl in E. rewrite app_assoc in E.
    rewrite (Hl _ _ E) in Wb. discriminate. }
  simpl in E. now rewrite app_nil_r in E.
Qed.

(** The pieces of a text are parts of it, and free of boundaries. *)
Lemma pieces_infix (t : list ascii) (ps : list (list ascii)) :
  split_at_boundaries t ps ->
  Forall (fun p => infix p t /\ ~ has_boundary p) ps.
Proof.
  induction 1 as [t Hnb | p c w d r ps Hnb Sc Hw Ww Cd _ IH].
  - repeat constructor; auto using infix_refl.
  - constructor.
    + split; [|assumption]. exists [], (w ++ d :: r). reflexivity.
    + eapply Forall_impl; [|exact IH]. intros q [Hq Hn]. split; [|assumption].
      apply (infix_trans _ _ _ Hq). exists ((p ++ [c]) ++ w), [].
      rewrite app_nil_r, <- !app_assoc. reflexivity.
Qed.

Lemma no_line_feed (text : string) :
  Forall (fun c => c <> line_feed) (chars (replace_newlines text)).
Proof.
  induction text as [|c text IH]; [constructor|].
  change (chars (replace_newlines (String c text)))
    with ((if (c =? line_feed)%char then " "%char else c)
            :: chars (replace_newlines text)).
  constructor; [|exact IH].
  destruct (Ascii.eqb_spec c line_feed); [discriminate | assumption].
Qed.

Lemma replace_newlines_id (s : string) :
  Forall (fun c => c <> line_feed) (chars s) -> replace_newlines s = s.
Proof.
  induction s as [|c s IH]; [reflexivity|].
  change (chars (String c s)) with (c :: chars s).
  intros H. inversion H as [|? ? Hc Hs]; subst. simpl.
  destruct (Ascii.eqb_spec c "010"%char) as [->|]; [now elim Hc|].
  now rewrite IH.
Qed.

(** Pieces after a cut: none is blank, each begins with a capital or a
    digit, and each but the last ends with a mark. *)
Lemma pieces_after_cut (t : list ascii) (ps : list (list ascii)) :
  split_at_boundaries t ps ->
  (exists d r, t = d :: r /\ is_cap d = true) ->
  Forall (fun p => exists d r, trim p = d :: r /\ is_cap d = true) ps
  /\ Forall (fun p => exists q c, trim p = q ++ [c] /\ is_stop c = true)
            (removelast ps).
Proof.
  induction 1 as [t Hnb | p c w d r ps Hnb Sc Hw Ww Cd Hps IH];
    intros (d0 & r0 & E0 & Cd0).
  - subst t. split; [|constructor]. constructor; [|constructor].
    destruct (trim_keeps_first d0 r0) as (r' & ->); eauto using cap_not_space.
  - destruct (IH (ex_intro _ d (ex_intro _ r (conj eq_refl Cd)))) as [IH1 IH2].
    assert (Hlast : exists q, trim (p ++ [c]) = q ++ [c]).
    { apply trim_keeps_last. now apply stop_not_space. }
    assert (Hfirst : exists r', trim (p ++ [c]) = d0 :: r').
    { destruct p as [|x p]; simpl in E0; injection E0 as -> _;
        apply trim_keeps_first; now apply cap_not_space. }
    split.
    + constructor; [|exact IH1]. destruct Hfirst as (r' & ->). eauto.
    + inversion Hps; subst; simpl.
      * constructor; [|constructor]. destruct Hlast as (q & ->). eauto.
      * constructor; [|exact IH2]. destruct Hlast as (q & ->). eauto.
Qed.

End SentenceFacts.

Section SentenceShape.

Import Splitter.
Local Open Scope nat_scope.

Lemma filter_all {A : Type} (g : A -> bool) (l : list A) :
  Forall (fun x => g x = true) l -> filter g l = l.
Proof.
  induction 1 as [|x l Hx _ IH]; simpl; [reflexivity|]. now rewrite Hx, IH.
Qed.

Lemma removelast_map {A B : Type} (f : A -> B) (l : list A) :
  removelast (map f l) = map f (removelast l).
Proof.
  induction l as [|x l IH]; [reflexivity|].
  destruct l as [|y l]; [reflexivity|].
  change (removelast (map f (x :: y :: l)))
    with (f x :: removelast (map f (y :: l))).
  now rewrite IH.
Qed.

Lemma split_nonempty (t : list ascii) (ps : list (list ascii)) :
  split_at_boundaries t ps -> ps <> [].
Proof. destruct 1; discriminate. Qed.

Lemma no_boundary_one_piece (t : list ascii) :
  ~ has_boundary t -> split t = [t].
Proof.
  intros H. apply (split_at_boundaries_unique t); [apply split_spec|].
  now apply sab_whole.
Qed.

Lemma no_stop_no_boundary (t : list ascii) :
  forallb (fun c => negb (is_stop c)) t = true -> ~ has_boundary t.
Proof.
  intros H (pre & c & w & d & post & -> & Sc & _).
  rewrite forallb_app in H. apply andb_true_iff in H as [_ H].
  simpl in H. rewrite Sc in H. discriminate.
Qed.

Lemma no_stop_replace_newlines (text : string) :
  forallb (fun c => negb (is_stop c)) (chars text) = true ->
  forallb (fun c => negb (is_stop c)) (chars (replace_newlines text)) = true.
Proof.
  induction text as [|c text IH]; [reflexivity|].
  change (chars (String c text)) with (c :: chars text).
  change (chars (replace_newlines (String c text)))
    with ((if (c =? "010")%char then " "%char else c)
            :: chars (replace_newlines text)).
  simpl. intros H. apply andb_true_iff in H as [Hc H].
  rewrite (IH H), andb_true_r.
  destruct (c =? "010")%char; [reflexivity | exact Hc].
Qed.

(** The sentences of a text: all but the last end with a mark, all but
    the first begin with a capital or a digit. *)
Lemma sentences_shape (t : list ascii) (ps : list (list ascii)) :
  split_at_boundaries t ps ->
  let out := filter truthy (map (fun p => str (trim p)) ps) in
  Forall ends_with_stop (removelast out) /\ Forall starts_with_cap (tl out).
Proof.
  intros Hps out. subst out.
  destruct Hps as [t Hnb | p c w d r ps Hnb Sc Hw Ww Cd Hps].
  - simpl. destruct (truthy (str (trim t))); simpl; split; constructor.
  - destruct (pieces_after_cut _ _ Hps) as [H1 H2]; [eauto|].
    destruct (trim_keeps_last p c (stop_not_space c Sc)) as (q & Eq).
    assert (Hall : Forall (fun x => truthy x = true)
                          (map (fun p => str (trim p)) ((p ++ [c]) :: ps))).
    { constructor.
      - rewrite Eq. destruct q; reflexivity.
      - apply Forall_map. eapply Forall_impl; [|exact H1].
        intros x (d' & r' & -> & _). reflexivity. }
    rewrite (filter_all _ _ Hall).
    cbn [map tl]. split.
    + pose proof (split_nonempty _ _ Hps) as Hne.
      destruct ps as [|p1 ps]; [congruence|].
      change (removelast (str (trim (p ++ [c]))
                :: map (fun p => str (trim p)) (p1 :: ps)))
        with (str (trim (p ++ [c]))
                :: removelast (map (fun p => str (trim p)) (p1 :: ps))).
      constructor.
      * exists q, c. now rewrite chars_str.
      * rewrite removelast_map. apply Forall_map.
        eapply Forall_impl; [|exact H2].
        intros x (q' & c' & E' & Sc'). exists q', c'. now rewrite chars_str.
    + apply Forall_map. eapply Forall_impl; [|exact H1].
      intros x (d' & r' & E' & Cd'). exists d', r'. now rewrite chars_str.
Qed.

(** A sentence is a trimmed, non-blank piece of the text. *)
Lemma sentence_is_piece (text s : string) :
  In s (extractSentences text) ->
  exists p,
    In p (split (chars (replace_newlines text)))
    /\ chars s = trim p /\ trim p <> [].
Proof.
  rewrite extractSentences_pieces. intros H.
  apply filter_In in H as [H T]. apply in_map_iff in H as (p & <- & Hp).
  exists p. rewrite chars_str. repeat split; auto.
  intros E. rewrite E in T. discriminate.
Qed.

End SentenceShape.

(** X4.  Every sentence that [extractSentences] returns is a contiguous
    part of the text (with line feeds turned into spaces), has no
    whitespace at either end and holds no line feed. *)
Theorem sentences_are_trimmed_parts (text : string) :
  Forall (fun s =>
            infix (chars s) (chars (replace_newlines text))
            /\ trimmed s
            /\ ~ In line_feed (chars s))
         (extractSentences text).
Proof.
  apply Forall_forall. intros s Hs.
  destruct (sentence_is_piece text s Hs) as (p & Hp & Es & Hne).
  pose proof (pieces_infix _ _ (split_spec (chars (replace_newlines text)))) as Hall.
  rewrite Forall_forall in Hall. destruct (Hall p Hp) as [Hin _].
  assert (Hinf : infix (chars s) (chars (replace_newlines text))).
  { rewrite Es. exact (infix_trans _ _ _ (trim_infix p) Hin). }
  split; [exact Hinf|]. split.
  - destruct (trim_spec p) as (_ & _ & _ & _ & _ & Hf & Hl).
    unfold trimmed. rewrite Es. split; assumption.
  - intros Hlf.
    pose proof (infix_Forall _ _ _ Hinf (no_line_feed text)) as Hno.
    rewrite Forall_forall in Hno. now apply (Hno _ Hlf).
Qed.

(** X5.  Of the sentences that [extractSentences] returns, all but the
    last end with [.], [?] or [!], and all but the first begin with a
    capital or a digit. *)
Theorem sentences_end_with_mark_start_with_capital (text : string) :
  Forall ends_with_stop (removelast (extractSentences text))
  /\ Forall starts_with_cap (tl (extractSentences text)).
Proof.
  rewrite extractSentences_pieces.
  apply (sentences_shape (chars (replace_newlines text))). apply split_spec.
Qed.

(** X6.  A text that holds none of [.], [?] and [!] is never split: the
    result is the whole text, trimmed, or nothing when the text is
    blank. *)
Theorem text_without_mark_is_one_sentence (text : string) :
  forallb (fun c => negb (Splitter.is_stop c)) (chars text) = true ->
  extractSentences text
  = filter truthy [str (trim (chars (replace_newlines text)))].
Proof.
  intros H. rewrite extractSentences_pieces.
  rewrite no_boundary_one_piece; [reflexivity|].
  apply no_stop_no_boundary. now apply no_stop_replace_newlines.
Qed.

Lemma text_without_mark_is_one_sentence_witness :
  extractSentences "  plain notes, no full stop  "
  = filter truthy
      [str (trim (chars (replace_newlines "  plain notes, no full stop  ")))].
Proof.
  apply (text_without_mark_is_one_sentence "  plain notes, no full stop  ").
  reflexivity.
Defined.

(** X7.  Splitting a sentence that [extractSentences] returned gives
    that sentence alone. *)
Theorem extractSentences_fixes_sentences (text : string) :
  Forall (fun s => extractSentences s = [s]) (extractSentences text).
Proof.
  apply Forall_forall. intros s Hs.
  destruct (sentence_is_piece text s Hs) as (p & Hp & Es & Hne).
  pose proof (pieces_infix _ _ (split_spec (chars (replace_newlines text)))) as Hall.
  rewrite Forall_forall in Hall. destruct (Hall p Hp) as [Hin Hnb].
  assert (Hlf : Forall (fun c => c <> line_feed) (chars s)).
  { rewrite Es. apply (infix_Forall _ _ (chars (replace_newlines text))).
    - exact (infix_trans _ _ _ (trim_infix p) Hin).
    - apply no_line_feed. }
  rewrite extractSentences_pieces, (replace_newlines_id s Hlf).
  rewrite no_boundary_one_piece.
  - cbn [map]. rewrite Es, trim_idempotent, <- Es, str_chars. simpl.
    destruct s; [|reflexivity]. now elim Hne.
  - rewrite Es. intros Hb. apply Hnb.
    exact (infix_boundary _ _ (trim_infix p) Hb).
Qed.

Section DistractorFacts.

Lemma differs_spec (p : string) (seed : option string) :
  differs p seed = true <-> seed <> Some p.
Proof.
  destruct seed as [s|]; simpl; [|split; [discriminate | reflexivity]].
  destruct (String.eqb_spec p s) as [->|Hne]; simpl; split; congruence.
Qed.

Lemma In_firstn {A : Type} (n : nat) (l : list A) (x : A) :
  In x (firstn n l) -> In x l.
Proof.
  intros H. rewrite <- (firstn_skipn n l). apply in_or_app. now left.
Qed.

Lemma candidates_in_pool (seed : option string) (pool : list string)
      (c : string) :
  In c (candidates_of seed pool) -> In c pool /\ seed <> Some c.
Proof.
  unfold candidates_of. intros H. apply In_firstn in H.
  apply filter_In in H as [H D]. split; [exact H | now apply differs_spec].
Qed.

Lemma candidates_nonempty (seed : option string) (pool : list string) :
  (exists p, In p pool /\ seed <> Some p) -> candidates_of seed pool <> [].
Proof.
  intros (p & Hp & Hd). unfold candidates_of.
  assert (In p (filter (fun p => differs p seed) pool)) as Hin.
  { apply filter_In. split; [exact Hp | now apply differs_spec]. }
  destruct (filter _ pool); [destruct Hin | discriminate].
Qed.

Lemma candidates_of_app (seed : option string) (pool more : list string) :
  (20 <= List.length (filter (fun p => differs p seed) pool))%nat ->
  candidates_of seed (pool ++ more) = candidates_of seed pool.
Proof.
  intros H. unfold candidates_of. rewrite filter_app, firstn_app.
  replace (20 - _)%nat with 0%nat by lia. simpl. apply app_nil_r.
Qed.

Lemma length_candidates (seed : option string) (pool : list string) :
  (List.length (candidates_of seed pool) <= 20)%nat.
Proof. unfold candidates_of. rewrite length_firstn. lia. Qed.

(** With draws in [0,1) and candidates that are not empty strings, a
    distractor is the cut of a candidate. *)
Lemma drawn_distractor_candidate (candidates : list string) (w : World)
      (i : nat) :
  unit_draws w -> candidates <> [] -> Forall (fun p => p <> "") candidates ->
  exists c, In c candidates /\ drawn_distractor candidates w i = shorten (Some c) 80.
Proof.
  intros Hw Hne Hall. unfold drawn_distractor.
  destruct (at_index_in_range candidates
              (drawn_index w (List.length candidates) i)) as (c & -> & Hc).
  { apply index_in_range; try apply Hw.
    destruct candidates; [congruence | simpl List.length; lia]. }
  exists c. split; [exact Hc|]. unfold or_fallback.
  rewrite Forall_forall in Hall. specialize (Hall c Hc).
  apply truthy_nonempty in Hall. now rewrite Hall.
Qed.

Lemma makeDistractors_tail (seed : option string) (pool : list string)
      (w : World) (d : string) :
  In d (tl (fst (makeDistractors seed pool 3 w))) ->
  exists i, d = drawn_distractor (candidates_of seed pool) w i.
Proof.
  rewrite makeDistractors_spec. simpl.
  intros [<-|[<-|[<-|[]]]]; eauto.
Qed.

End DistractorFacts.

(** X8.  On a non-empty list [pickSentences] makes exactly
    [max(limit, 0)] calls of [Math.random] and no read of the clock, and
    returns the empty list for a limit of zero or less; on an empty or
    missing list it reads nothing. *)
Theorem pickSentences_uses_limit_draws :
  (forall (sentences : list string) (limit : Z) (w : World),
      sentences <> [] ->
      snd (pickSentences (Some sentences) limit w)
      = after_draws (Z.to_nat limit) w
      /\ List.length (fst (pickSentences (Some sentences) limit w))
         = Z.to_nat limit
      /\ (limit <= 0 -> pickSentences (Some sentences) limit w = ([], w)))
  /\ (forall (limit : Z) (w : World),
         snd (pickSentences (Some []) limit w) = w
         /\ snd (pickSentences None limit w) = w).
Proof.
  split; [|intros; split; reflexivity].
  intros sentences limit w Hne.
  destruct sentences as [|s l]; [congruence|].
  unfold pickSentences. rewrite pick_loop_spec. cbn [fst snd app]. repeat split.
  - rewrite length_map, length_seq. reflexivity.
  - intros Hl. replace (Z.to_nat limit) with 0%nat by lia. simpl.
    unfold after_draws. destruct w; reflexivity.
Qed.

Lemma pickSentences_uses_limit_draws_witness :
  snd (pickSentences (Some ["a"; "b"; "c"]) 2 demoWorld)
  = after_draws (Z.to_nat 2) demoWorld
  /\ List.length (fst (pickSentences (Some ["a"; "b"; "c"]) 2 demoWorld))
     = Z.to_nat 2
  /\ (2 <= 0 -> pickSentences (Some ["a"; "b"; "c"]) 2 demoWorld = ([], demoWorld)).
Proof.
  apply (proj1 pickSentences_uses_limit_draws ["a"; "b"; "c"] 2 demoWorld).
  discriminate.
Defined.

(** X9.  With draws in [0,1), a pool without empty strings and at least
    one sentence other than the seed, each of the three distractors is the
    cut at 80 characters of a pool sentence other than the seed, one of
    the first twenty such. *)
Theorem distractors_come_from_pool (seed : option string)
        (pool : list string) (w : World) :
  unit_draws w ->
  Forall (fun p => p <> "") pool ->
  (exists p, In p pool /\ seed <> Some p) ->
  Forall (fun d =>
            exists c,
              In c pool /\ seed <> Some c
              /\ In c (firstn 20 (filter (fun p => differs p seed) pool))
              /\ d = shorten (Some c) 80)
         (tl (fst (makeDistractors seed pool 3 w))).
Proof.
  intros Hw Hall Hex. apply Forall_forall. intros d Hd.
  destruct (makeDistractors_tail seed pool w d Hd) as (i & ->).
  destruct (drawn_distractor_candidate (candidates_of seed pool) w i)
    as (c & Hc & ->); auto using candidates_nonempty.
  - apply Forall_forall. intros c Hc.
    rewrite Forall_forall in Hall. apply Hall.
    now apply candidates_in_pool in Hc.
  - exists c. destruct (candidates_in_pool _ _ _ Hc). auto.
Qed.

Lemma distractors_come_from_pool_witness :
  Forall (fun d =>
            exists c,
              In c ["a"; "b"; "c"] /\ Some "a" <> Some c
              /\ In c (firstn 20 (filter (fun p => differs p (Some "a"))
                                         ["a"; "b"; "c"]))
              /\ d = shorten (Some c) 80)
         (tl (fst (makeDistractors (Some "a") ["a"; "b"; "c"] 3 demoWorld))).
Proof.
  apply (distractors_come_from_pool (Some "a") ["a"; "b"; "c"] demoWorld).
  - exact demoWorld_unit_draws.
  - repeat constructor; discriminate.
  - exists "b". split; [simpl; auto | discriminate].
Defined.

(** X10.  With draws in [0,1), when the seed and the pool sentences are
    non-empty and at most 80 characters long and the pool holds a sentence
    other than the seed, every distractor is a pool sentence and differs
    from the correct choice. *)
Theorem short_distractors_differ_from_answer (s : string)
        (pool : list string) (w : World) :
  unit_draws w ->
  s <> "" -> len s <= 80 ->
  Forall (fun p => p <> "" /\ len p <= 80) pool ->
  (exists p, In p pool /\ p <> s) ->
  Forall (fun d => In d pool /\ d <> shorten (Some s) 80)
         (tl (fst (makeDistractors (Some s) pool 3 w))).
Proof.
  intros Hw Hs Hlen Hall (p & Hp & Hps).
  assert (short : forall x, x <> "" -> len x <= 80 -> shorten (Some x) 80 = x).
  { intros x Hx Hl. unfold shorten. apply truthy_nonempty in Hx. rewrite Hx.
    cbn [negb]. apply Z.leb_le in Hl. now rewrite Hl. }
  apply Forall_forall. intros d Hd.
  destruct (makeDistractors_tail (Some s) pool w d Hd) as (i & ->).
  destruct (drawn_distractor_candidate (candidates_of (Some s) pool) w i)
    as (c & Hc & ->); auto.
  - apply candidates_nonempty. exists p. split; [exact Hp | congruence].
  - apply Forall_forall. intros c Hc. apply candidates_in_pool in Hc as [Hc _].
    rewrite Forall_forall in Hall. now apply Hall.
  - apply candidates_in_pool in Hc as [Hc Hne].
    rewrite Forall_forall in Hall. destruct (Hall c Hc) as [Hc1 Hc2].
    rewrite (short c Hc1 Hc2), (short s Hs Hlen). split; [exact Hc | congruence].
Qed.

Lemma short_distractors_differ_from_answer_witness :
  Forall (fun d => In d ["a"; "b"; "c"] /\ d <> shorten (Some "a") 80)
         (tl (fst (makeDistractors (Some "a") ["a"; "b"; "c"] 3 demoWorld))).
Proof.
  apply (short_distractors_differ_from_answer "a" ["a"; "b"; "c"] demoWorld).
  - exact demoWorld_unit_draws.
  - discriminate.
  - vm_compute. discriminate.
  - repeat constructor; try discriminate; vm_compute; discriminate.
  - exists "b". split; [simpl; auto | discriminate].
Defined.

(** X11.  Once the pool holds twenty sentences other than the seed, what
    follows in the pool changes nothing to the result of
    [makeDistractors]. *)
Theorem distractors_ignore_pool_beyond_twenty (seed : option string)
        (pool more : list string) (num : Z) (w : World) :
  (20 <= List.length (filter (fun p => differs p seed) pool))%nat ->
  makeDistractors seed (pool ++ more) num w = makeDistractors seed pool num w.
Proof.
  intros H. unfold makeDistractors.
  change (firstn 20 (filter (fun p => differs p seed) (pool ++ more)))
    with (candidates_of seed (pool ++ more)).
  rewrite (candidates_of_app seed pool more H). reflexivity.
Qed.

Lemma distractors_ignore_pool_beyond_twenty_witness :
  makeDistractors (Some "a") (repeat "b" 20 ++ ["c"; "d"]) 3 demoWorld
  = makeDistractors (Some "a") (repeat "b" 20) 3 demoWorld.
Proof.
  apply (distractors_ignore_pool_beyond_twenty (Some "a") (repeat "b" 20)
           ["c"; "d"] 3 demoWorld).
  vm_compute. reflexivity.
Defined.

Section BuilderFacts.

Lemma ticks_pickSentences (sentences : option (list string)) (limit : Z)
      (w : World) :
  ticks (snd (pickSentences sentences limit w)) = ticks w.
Proof.
  destruct sentences as [[|s l]|]; try reflexivity.
  unfold pickSentences. now rewrite pick_loop_spec.
Qed.

Lemma make_item_id (type : string) (sentences : list string)
      (s : option string) (i : Z) (w : World) :
  item_id (fst (make_item type sentences s i w)) = ticks w 0 + i
  /\ forall j, ticks (snd (make_item type sentences s i w)) j = ticks w (S j).
Proof.
  unfold make_item. destruct (type =? "mcq")%string.
  - unfold bind. rewrite makeDistractors_spec.
    cbv beta iota zeta delta [Date_now ret fst snd]. split; reflexivity.
  - unfold bind, Date_now, ret. split; reflexivity.
Qed.

Lemma map_items_ids (type : string) (sentences : list string)
      (picks : list (option string)) :
  forall (i : Z) (w : World),
    (forall k it,
        nth_error (fst (map_items type sentences picks i w)) k = Some it ->
        item_id it = ticks w k + (i + Z.of_nat k))
    /\ (forall j, ticks (snd (map_items type sentences picks i w)) j
                  = ticks w (List.length picks + j)).
Proof.
  induction picks as [|s picks IH]; intros i w.
  - split; [intros [|k] it H; discriminate H | reflexivity].
  - cbn [map_items]. cbv beta iota zeta delta [bind ret].
    destruct (make_item_id type sentences s i w) as [Hid Ht].
    destruct (make_item type sentences s i w) as [it0 w1].
    destruct (IH (i + 1) w1) as [IHid IHt].
    destruct (map_items type sentences picks (i + 1) w1) as [its w2].
    cbn [fst snd] in *. split.
    + intros [|k] it H; simpl in H.
      * injection H as <-. rewrite Hid. simpl. lia.
      * rewrite (IHid k it H), Ht. lia.
    + intros j. rewrite IHt, Ht. reflexivity.
Qed.

Lemma length_map_items (type : string) (sentences : list string)
      (picks : list (option string)) :
  forall (i : Z) (w : World),
    List.length (fst (map_items type sentences picks i w)) = List.length picks.
Proof.
  intros i w. symmetry.
  exact (Forall2_length (map_items_spec type sentences picks i w)).
Qed.

Lemma map_items_Forall2 (R : option string -> AssessmentItem -> Prop)
      (type : string) (sentences : list string) :
  (forall s i w, R s (fst (make_item type sentences s i w))) ->
  forall (picks : list (option string)) (i : Z) (w : World),
    Forall2 R picks (fst (map_items type sentences picks i w)).
Proof.
  intros HR. induction picks as [|s picks IH]; intros i w.
  - constructor.
  - cbn [map_items]. cbv beta iota zeta delta [bind ret].
    pose proof (HR s i w) as Hit.
    destruct (make_item type sentences s i w) as [it w1].
    pose proof (IH (i + 1) w1) as Hits.
    destruct (map_items type sentences picks (i + 1) w1) as [its w2].
    simpl in *. now constructor.
Qed.

(** The state after an assessment was generated, in full. *)
Lemma generateAssessmentFromDoc_result (id : Z) (type : string) (limit : Z)
      (st : AppState) (w : World) (doc : Document) :
  find_doc id st = Some doc ->
  let sentences := extractSentences (doc_text doc) in
  let picks := fst (pickSentences (Some sentences) limit w) in
  let w1 := snd (pickSentences (Some sentences) limit w) in
  let its := fst (map_items type sentences picks 0 w1) in
  exists created,
    fst (generateAssessmentFromDoc id type limit st w)
    = {| route := "assessments";
         profile := profile st;
         documents := documents st;
         assessments :=
           {| assessment_id := ticks w (List.length picks);
              docId := id;
              title := "Auto Assessment - " ++ doc_name doc;
              items := its;
              createdAt := created |} :: assessments st;
         progressData := progressData st |}.
Proof.
  intros Hdoc sentences picks w1 its. subst sentences picks w1 its.
  unfold generateAssessmentFromDoc. rewrite Hdoc.
  cbv beta iota zeta delta [bind Date_now Date_iso ret].
  pose proof (ticks_pickSentences (Some (extractSentences (doc_text doc))) limit w)
    as Ht.
  destruct (pickSentences _ limit w) as [picks w1]. cbn [fst snd] in *.
  destruct (map_items_ids type (extractSentences (doc_text doc)) picks 0 w1)
    as [_ Hticks].
  destruct (map_items _ _ picks 0 w1) as [its w2]. cbn [fst snd] in *.
  eexists. cbn [fst]. f_equal. f_equal. f_equal.
  rewrite (Hticks 0%nat), Ht. f_equal. lia.
Qed.

Lemma ticks_monotone (w : World) (k k' : nat) :
  clock_monotone w -> (k <= k')%nat -> ticks w k <= ticks w k'.
Proof.
  intros Hm Hk. induction Hk as [|k' _ IH]; [lia|].
  specialize (Hm k'). lia.
Qed.

Lemma length_picks (sentences : list string) (limit : Z) (w : World) :
  List.length (fst (pickSentences (Some sentences) limit w))
  = match sentences with [] => 1%nat | _ => Z.to_nat limit end.
Proof.
  destruct sentences as [|s l]; [reflexivity|].
  unfold pickSentences. rewrite pick_loop_spec. cbn [fst app].
  now rewrite length_map, length_seq.
Qed.

End BuilderFacts.

(** X12.  For the id of a stored document, [generateAssessmentFromDoc]
    puts one assessment in front of the list, with that id as [docId] and
    the title made of the document name, sets the route to the assessments
    panel and leaves documents, profile and progress data alone.  The
    assessment has one item when the document has no sentence, whatever
    the limit, and [max(limit, 0)] items otherwise. *)
Theorem generateAssessmentFromDoc_adds_one_assessment (id : Z) (type : string)
        (limit : Z) (st : AppState) (w : World) (doc : Document) :
  find_doc id st = Some doc ->
  let st' := fst (generateAssessmentFromDoc id type limit st w) in
  exists a,
    assessments st' = a :: assessments st
    /\ documents st' = documents st
    /\ profile st' = profile st
    /\ progressData st' = progressData st
    /\ route st' = "assessments"
    /\ docId a = id
    /\ title a = ("Auto Assessment - " ++ doc_name doc)%string
    /\ List.length (items a)
       = match extractSentences (doc_text doc) with
         | [] => 1%nat
         | _ => Z.to_nat limit
         end.
Proof.
  intros Hdoc st'. subst st'.
  destruct (generateAssessmentFromDoc_result id type limit st w doc Hdoc)
    as (created & ->).
  eexists. split; [reflexivity|].
  cbn [assessments documents profile progressData route docId title items].
  repeat split.
  rewrite length_map_items. apply length_picks.
Qed.

Lemma generateAssessmentFromDoc_adds_one_assessment_witness :
  exists a,
    assessments (fst (generateAssessmentFromDoc 7 "short" 4 demoState demoWorld))
    = a :: assessments demoState
    /\ documents (fst (generateAssessmentFromDoc 7 "short" 4 demoState demoWorld))
       = documents demoState
    /\ profile (fst (generateAssessmentFromDoc 7 "short" 4 demoState demoWorld))
       = profile demoState
    /\ progressData (fst (generateAssessmentFromDoc 7 "short" 4 demoState demoWorld))
       = progressData demoState
    /\ route (fst (generateAssessmentFromDoc 7 "short" 4 demoState demoWorld))
       = "assessments"
    /\ docId a = 7
    /\ title a = ("Auto Assessment - " ++ "notes.txt")%string
    /\ List.length (items a)
       = match extractSentences "Hello world. This Is Fine! Next one?" with
         | [] => 1%nat
         | _ => Z.to_nat 4
         end.
Proof.
  apply (generateAssessmentFromDoc_adds_one_assessment 7 "short" 4 demoState
           demoWorld
           (mkDocument 7 "notes.txt" 36 "Hello world. This Is Fine! Next one?"
                       "2024-01-01T00:00:00.000Z" false)).
  reflexivity.
Defined.

(** X13.  The [k]-th item of a generated assessment has the [k]-th
    reading of the clock plus [k] as its id; when the clock does not run
    backwards the ids of the items strictly increase, so no two items
    share an id.  The id of the assessment is the reading taken after the
    last item. *)
Theorem item_ids_increase (id : Z) (type : string) (limit : Z)
        (st : AppState) (w : World) (doc : Document) :
  find_doc id st = Some doc ->
  clock_monotone w ->
  exists a,
    assessments (fst (generateAssessmentFromDoc id type limit st w))
    = a :: assessments st
    /\ (forall k it,
           nth_error (items a) k = Some it ->
           item_id it = ticks w k + Z.of_nat k)
    /\ (forall k k' it it',
           (k < k')%nat ->
           nth_error (items a) k = Some it ->
           nth_error (items a) k' = Some it' ->
           item_id it < item_id it')
    /\ assessment_id a = ticks w (List.length (items a)).
Proof.
  intros Hdoc Hm.
  destruct (generateAssessmentFromDoc_result id type limit st w doc Hdoc)
    as (created & ->).
  eexists. split; [reflexivity|]. cbn [assessments items assessment_id].
  set (sentences := extractSentences (doc_text doc)).
  set (picks := fst (pickSentences (Some sentences) limit w)).
  set (w1 := snd (pickSentences (Some sentences) limit w)).
  destruct (map_items_ids type sentences picks 0 w1) as [Hid _].
  assert (Hid' : forall k it,
             nth_error (fst (map_items type sentences picks 0 w1)) k = Some it ->
             item_id it = ticks w k + Z.of_nat k).
  { intros k it H. rewrite (Hid k it H). unfold w1.
    rewrite ticks_pickSentences. lia. }
  split; [exact Hid'|]. split.
  - intros k k' it it' Hk H H'.
    rewrite (Hid' k it H), (Hid' k' it' H').
    pose proof (ticks_monotone w k k' Hm ltac:(lia)). lia.
  - now rewrite length_map_items.
Qed.

Lemma demoWorld_clock_monotone : clock_monotone demoWorld.
Proof. intros i. unfold demoWorld, ticks. lia. Qed.

Lemma item_ids_increase_witness :
  exists a,
    assessments (fst (generateAssessmentFromDoc 7 "mcq" 4 demoState demoWorld))
    = a :: assessments demoState
    /\ (forall k it,
           nth_error (items a) k = Some it ->
           item_id it = ticks demoWorld k + Z.of_nat k)
    /\ (forall k k' it it',
           (k < k')%nat ->
           nth_error (items a) k = Some it ->
           nth_error (items a) k' = Some it' ->
           item_id it < item_id it')
    /\ assessment_id a = ticks demoWorld (List.length (items a)).
Proof.
  apply (item_ids_increase 7 "mcq" 4 demoState demoWorld
           (mkDocument 7 "notes.txt" 36 "Hello world. This Is Fine! Next one?"
                       "2024-01-01T00:00:00.000Z" false)).
  - reflexivity.
  - exact demoWorld_clock_monotone.
Defined.

(** X14.  A type that is not exactly the string mcq gives short-answer
    items only: no choices, the whole seed as the answer, and the question
    made of the seed cut at 120 characters. *)
Theorem other_types_give_short_answers (id : Z) (type : string) (limit : Z)
        (st : AppState) (w : World) (doc : Document) :
  find_doc id st = Some doc ->
  type <> "mcq" ->
  exists a,
    assessments (fst (generateAssessmentFromDoc id type limit st w))
    = a :: assessments st
    /\ Forall2
         (fun seed it =>
            item_type it = "short"
            /\ choices it = None
            /\ answer it = seed
            /\ question it
               = ("Explain: " ++ dquote ++ shorten seed 120 ++ dquote)%string)
         (fst (pickSentences (Some (extractSentences (doc_text doc))) limit w))
         (items a).
Proof.
  intros Hdoc Hty.
  destruct (generateAssessmentFromDoc_result id type limit st w doc Hdoc)
    as (created & ->).
  eexists. split; [reflexivity|]. cbn [assessments items].
  apply map_items_Forall2. intros s i w'.
  unfold make_item. apply String.eqb_neq in Hty. rewrite Hty.
  unfold bind, Date_now, ret. cbn. auto.
Qed.

Lemma other_types_give_short_answers_witness :
  exists a,
    assessments (fst (generateAssessmentFromDoc 7 "MCQ" 4 demoState demoWorld))
    = a :: assessments demoState
    /\ Forall2
         (fun seed it =>
            item_type it = "short"
            /\ choices it = None
            /\ answer it = seed
            /\ question it
               = ("Explain: " ++ dquote ++ shorten seed 120 ++ dquote)%string)
         (fst (pickSentences
                 (Some (extractSentences "Hello world. This Is Fine! Next one?"))
                 4 demoWorld))
         (items a).
Proof.
  apply (other_types_give_short_answers 7 "MCQ" 4 demoState demoWorld
           (mkDocument 7 "notes.txt" 36 "Hello world. This Is Fine! Next one?"
                       "2024-01-01T00:00:00.000Z" false)).
  - reflexivity.
  - discriminate.
Defined.

(** X15.  From a document without sentences (an empty or blank text) the
    multiple-choice assessment has exactly one item, whatever the limit:
    its answer is the placeholder sentence and its three distractors are
    the fallback string. *)
Theorem document_without_sentences_gives_one_item (id : Z) (limit : Z)
        (st : AppState) (w : World) (doc : Document) :
  find_doc id st = Some doc ->
  extractSentences (doc_text doc) = [] ->
  exists a it,
    assessments (fst (generateAssessmentFromDoc id "mcq" limit st w))
    = a :: assessments st
    /\ items a = [it]
    /\ item_type it = "mcq"
    /\ question it
       = ("What best explains: " ++ dquote ++ placeholder ++ dquote ++ "?")%string
    /\ choices it = Some [placeholder; fallback; fallback; fallback]
    /\ answer it = Some placeholder.
Proof.
  intros Hdoc Hnone.
  destruct (generateAssessmentFromDoc_result id "mcq" limit st w doc Hdoc)
    as (created & ->).
  rewrite Hnone. cbn [pickSentences ret fst snd map_items].
  cbv beta iota zeta delta [bind ret]. cbn [make_item String.eqb Ascii.eqb Bool.eqb].
  cbv beta iota zeta delta [bind ret]. rewrite makeDistractors_spec.
  change (candidates_of (Some "No content to generate from.") [])
    with (@nil string).
  rewrite !drawn_distractor_nil.
  do 2 eexists. cbn. repeat split.
Qed.

Lemma document_without_sentences_gives_one_item_witness :
  exists a it,
    assessments (fst (generateAssessmentFromDoc 9 "mcq" 4 blankState demoWorld))
    = a :: assessments blankState
    /\ items a = [it]
    /\ item_type it = "mcq"
    /\ question it
       = ("What best explains: " ++ dquote ++ placeholder ++ dquote ++ "?")%string
    /\ choices it = Some [placeholder; fallback; fallback; fallback]
    /\ answer it = Some placeholder.
Proof.
  apply (document_without_sentences_gives_one_item 9 4 blankState demoWorld
           (mkDocument 9 "blank.txt" 3 "   " "2024-01-01T00:00:00.000Z" false)).
  - reflexivity.
  - reflexivity.
Defined.

Section SessionFacts.

Lemma unit_draws_after (k : nat) (w : World) :
  unit_draws w -> unit_draws (after_draws k w).
Proof. intros H i. apply H. Qed.

Lemma unit_draws_make_item (type : string) (sentences : list string)
      (s : option string) (i : Z) (w : World) :
  unit_draws w -> unit_draws (snd (make_item type sentences s i w)).
Proof.
  intros H. unfold make_item. destruct (type =? "mcq")%string.
  - unfold bind. rewrite makeDistractors_spec.
    cbv beta iota zeta delta [Date_now ret snd]. intros j. apply H.
  - unfold bind, Date_now, ret. intros j. apply H.
Qed.

Lemma unit_draws_map_items (type : string) (sentences : list string)
      (picks : list (option string)) :
  forall (i : Z) (w : World),
    unit_draws w -> unit_draws (snd (map_items type sentences picks i w)).
Proof.
  induction picks as [|s picks IH]; intros i w H; [exact H|].
  cbn [map_items]. cbv beta iota zeta delta [bind ret].
  pose proof (unit_draws_make_item type sentences s i w H) as H1.
  destruct (make_item type sentences s i w) as [it w1].
  pose proof (IH (i + 1) w1 H1) as H2.
  destruct (map_items type sentences picks (i + 1) w1) as [its w2].
  exact H2.
Qed.

Lemma unit_draws_pickSentences (sentences : option (list string)) (limit : Z)
      (w : World) :
  unit_draws w -> unit_draws (snd (pickSentences sentences limit w)).
Proof.
  intros H. destruct sentences as [[|s l]|]; try exact H.
  unfold pickSentences. rewrite pick_loop_spec. now apply unit_draws_after.
Qed.

Lemma unit_draws_generate (id : Z) (type : string) (limit : Z)
      (st : AppState) (w : World) :
  unit_draws w ->
  unit_draws (snd (generateAssessmentFromDoc id type limit st w)).
Proof.
  intros H. unfold generateAssessmentFromDoc.
  destruct (find_doc id st) as [doc|]; [|exact H].
  cbv beta iota zeta delta [bind Date_now Date_iso ret].
  pose proof (unit_draws_pickSentences
                (Some (extractSentences (doc_text doc))) limit w H) as H1.
  destruct (pickSentences _ limit w) as [picks w1].
  pose proof (unit_draws_map_items type (extractSentences (doc_text doc))
                picks 0 w1 H1) as H2.
  destruct (map_items _ _ picks 0 w1) as [its w2].
  intros j. apply H2.
Qed.

Lemma unit_draws_upload (file : option File) (st : AppState) (w : World) :
  unit_draws w -> unit_draws (snd (handleFileUpload file st w)).
Proof.
  intros H. unfold handleFileUpload, store_text.
  destruct file as [file|]; [|exact H].
  destruct (is_text_file file); [|destruct (is_pdf_file file)];
    intros j; apply H.
Qed.

Lemma handleFileUpload_result (file : File) (st : AppState) (w : World) :
  fst (handleFileUpload (Some file) st w)
  = if stored_as_stub file
    then (add_document (uploaded_doc file w) st,
          Some "PDF uploaded. For full text extraction, enable pdf parsing (pdfjs) or use server-side ingestion.")
    else (setRoute "upload" (add_document (uploaded_doc file w) st), None).
Proof.
  unfold handleFileUpload, store_text, uploaded_doc, stored_as_stub.
  destruct (is_text_file file); [|destruct (is_pdf_file file)]; reflexivity.
Qed.

Lemma handleFileUpload_documents (file : File) (st : AppState) (w : World) :
  documents (fst (fst (handleFileUpload (Some file) st w)))
  = uploaded_doc file w :: documents st
  /\ assessments (fst (fst (handleFileUpload (Some file) st w)))
     = assessments st
  /\ profile (fst (fst (handleFileUpload (Some file) st w))) = profile st
  /\ progressData (fst (fst (handleFileUpload (Some file) st w)))
     = progressData st.
Proof.
  rewrite handleFileUpload_result.
  destruct (stored_as_stub file); repeat split.
Qed.

(** What [markAssessmentProgress] returns when there is an entry to pick. *)
Lemma markAssessmentProgress_done (assessmentId : Z) (st : AppState)
      (w : World) :
  unit_draws w -> progressData st <> [] ->
  exists (idx : nat) (e : ProgressPoint) (d : Z),
    nth_error (progressData st) idx = Some e
    /\ 0 <= d <= 19
    /\ fst (markAssessmentProgress assessmentId st w)
       = Done {| route := route st;
                 profile := profile st;
                 documents := documents st;
                 assessments := assessments st;
                 progressData :=
                   set_at (progressData st) idx
                          {| month := month e;
                             score := Z.min 100 (score e + d) |} |}
    /\ unit_draws (snd (markAssessmentProgress assessmentId st w)).
Proof.
  intros Hw Hne. unfold markAssessmentProgress. rewrite copy_points.
  cbv beta iota zeta delta [bind random_below Math_random ret].
  set (idx := Qfloor (Binary64.times
                        (Binary64.below (draws w 0))
                        (inject_Z (Z.of_nat (List.length (progressData st)))))).
  assert (Hidx : 0 <= idx < Z.of_nat (List.length (progressData st))).
  { apply index_in_range; try apply Hw.
    destruct (progressData st); [congruence | simpl List.length; lia]. }
  unfold at_index. destruct (Z.ltb_spec idx 0) as [|_]; [lia|].
  destruct (nth_error (progressData st) (Z.to_nat idx)) as [e|] eqn:He.
  2:{ apply nth_error_None in He. lia. }
  set (d := Qfloor (Binary64.times (Binary64.below (draws w 1))
                                      (inject_Z 20))).
  assert (Hd : 0 <= d < 20).
  { apply index_in_range; try apply Hw. lia. }
  exists (Z.to_nat idx), e, d. cbn [fst snd]. repeat split; auto; try lia.
  - apply Hw.
  - apply Hw.
Qed.

Lemma map_month_set_at (pd : list ProgressPoint) :
  forall (idx : nat) (e : ProgressPoint) (s : Z),
    nth_error pd idx = Some e ->
    map month (set_at pd idx {| month := month e; score := s |})
    = map month pd.
Proof.
  induction pd as [|p pd IH]; intros [|idx] e s H; simpl in *;
    try discriminate.
  - now injection H as ->.
  - f_equal. now apply IH.
Qed.

Lemma Forall2_set_at (R : ProgressPoint -> ProgressPoint -> Prop)
      (l0 : list ProgressPoint) :
  forall (pd : list ProgressPoint) (idx : nat) (e e' : ProgressPoint),
    Forall2 R l0 pd ->
    nth_error pd idx = Some e ->
    (forall p0, R p0 e -> R p0 e') ->
    Forall2 R l0 (set_at pd idx e').
Proof.
  induction l0 as [|p0 l0 IH]; intros pd idx e e' H Hn HR;
    inversion H as [|? p ? pd' Hp Hrest]; subst.
  - destruct idx; discriminate.
  - destruct idx as [|idx]; simpl in *.
    + injection Hn as ->. constructor; auto.
    + constructor; [assumption|]. eapply IH; eauto.
Qed.

Lemma item_of_well_formed (type : string) (seed : option string)
      (it : AssessmentItem) :
  item_of type seed it -> item_well_formed it.
Proof.
  unfold item_of. destruct (type =? "mcq")%string.
  - intros (Hty & d1 & d2 & d3 & Hc & Ha). left. split; [exact Hty|].
    now exists (shorten seed 80), d1, d2, d3.
  - intros (Hty & Hc & _). right. auto.
Qed.

Lemma assessments_sound_add_document (doc : Document) (st st' : AppState) :
  documents st' = doc :: documents st ->
  assessments st' = assessments st ->
  assessments_sound st -> assessments_sound st'.
Proof.
  unfold assessments_sound. intros -> ->. apply Forall_impl.
  intros a [(d & Hd & E) Hits]. split; [|exact Hits].
  exists d. split; [now right | exact E].
Qed.

(** One event keeps the state sound and does not throw. *)
Lemma handle_invariant (e : Event) (st : AppState) (w : World) :
  unit_draws w -> progress_in_range st -> assessments_sound st ->
  exists st',
    fst (handle e st w) = Done st'
    /\ unit_draws (snd (handle e st w))
    /\ progress_in_range st' /\ assessments_sound st'.
Proof.
  intros Hw Hp Ha. destruct e as [r|file|id type limit|aid|field value|].
  - exists (setRoute r st). split; [reflexivity|]. split; [exact Hw|].
    split; [exact Hp | exact Ha].
  - unfold handle, bind, ret.
    pose proof (unit_draws_upload file st w Hw) as Hw'.
    destruct file as [file|];
      [|exists st; split; [reflexivity|]; split; [exact Hw|]; split;
        [exact Hp | exact Ha]].
    destruct (handleFileUpload_documents file st w) as (Hd & Has & _ & Hpd).
    destruct (handleFileUpload (Some file) st w) as [[st' alert] w'].
    cbn [fst snd] in *. exists st'. split; [reflexivity|].
    split; [exact Hw'|]. split.
    + unfold progress_in_range. rewrite Hpd. exact Hp.
    + eapply assessments_sound_add_document; eauto.
  - unfold handle, bind, ret.
    pose proof (unit_draws_generate id type limit st w Hw) as Hw'.
    destruct (find_doc id st) as [doc|] eqn:Hdoc.
    + destruct (generateAssessmentFromDoc_found id type limit st w doc Hdoc)
        as (a & Has & Hd & _ & Hpd & Hid & Hits).
      destruct (generateAssessmentFromDoc id type limit st w) as [st' w'].
      cbn [fst snd] in *. exists st'. split; [reflexivity|].
      split; [exact Hw'|]. split.
      * unfold progress_in_range. rewrite Hpd. exact Hp.
      * unfold assessments_sound. rewrite Has, Hd. constructor; [|exact Ha].
        split.
        -- exists doc. split; [|].
           ++ unfold find_doc in Hdoc. now apply find_some in Hdoc.
           ++ unfold find_doc in Hdoc. apply find_some in Hdoc as [_ E].
              apply Z.eqb_eq in E. congruence.
        -- clear -Hits. induction Hits; constructor; auto.
           eapply item_of_well_formed; eauto.
    + unfold generateAssessmentFromDoc in *. rewrite Hdoc in *.
      exists st. split; [reflexivity|]. split; [exact Hw|].
      split; [exact Hp | exact Ha].
  - unfold handle.
    destruct Hp as [Hm Hs].
    assert (Hne : progressData st <> []).
    { intros E. rewrite E in Hm. discriminate. }
    destruct (markAssessmentProgress_done aid st w Hw Hne)
      as (idx & e0 & d & Hn & Hd & -> & Hw').
    eexists. split; [reflexivity|]. split; [exact Hw'|]. split; [|exact Ha].
    split; cbn [progressData].
    + now rewrite map_month_set_at.
    + eapply Forall2_set_at; eauto. cbn [score]. intros p0 H0. lia.
  - eexists. split; [reflexivity|]. split; [exact Hw|].
    split; [exact Hp | exact Ha].
  - eexists. split; [reflexivity|]. split; [exact Hw|].
    split; [exact Hp | exact Ha].
Qed.

Lemma run_invariant (es : list Event) :
  forall (st : AppState) (w : World),
    unit_draws w -> progress_in_range st -> assessments_sound st ->
    exists st',
      fst (run es st w) = Done st'
      /\ progress_in_range st' /\ assessments_sound st'.
Proof.
  induction es as [|e es IH]; intros st w Hw Hp Ha.
  - exists st. auto.
  - cbn [run]. unfold bind at 1.
    destruct (handle_invariant e st w Hw Hp Ha) as (st1 & E & Hw1 & Hp1 & Ha1).
    destruct (handle e st w) as [o w1]. cbn [fst snd] in *. subst o.
    now apply IH.
Qed.

Lemma initial_progress_in_range : progress_in_range initialState.
Proof.
  split; [reflexivity|]. unfold initialState, sampleProgress. cbn.
  repeat constructor; cbn; lia.
Qed.

Lemma initial_assessments_sound : assessments_sound initialState.
Proof. constructor. Qed.

End SessionFacts.

(** X16.  With draws in [0,1), no handler throws in any session that
    starts from the initial state, and after it the progress series still
    has the eight months of the seed series, each score between its seed
    value and 100. *)
Theorem session_keeps_progress_in_range (es : list Event) (w : World) :
  unit_draws w ->
  exists st,
    fst (run es initialState w) = Done st
    /\ map month (progressData st) = map month sampleProgress
    /\ Forall2 (fun p0 p => score p0 <= score p <= 100)
               sampleProgress (progressData st).
Proof.
  intros Hw.
  destruct (run_invariant es initialState w Hw initial_progress_in_range
              initial_assessments_sound) as (st & E & [Hm Hs] & _).
  exists st. auto.
Qed.

Lemma session_keeps_progress_in_range_witness :
  exists st,
    fst (run demoSession initialState demoWorld) = Done st
    /\ map month (progressData st) = map month sampleProgress
    /\ Forall2 (fun p0 p => score p0 <= score p <= 100)
               sampleProgress (progressData st).
Proof.
  apply (session_keeps_progress_in_range demoSession demoWorld).
  exact demoWorld_unit_draws.
Defined.

(** X17.  With draws in [0,1), after any session from the initial state
    every stored assessment refers to a stored document, and every item of
    it is well formed: a multiple-choice item has four choices and its
    answer is the first, a short-answer item has none. *)
Theorem session_keeps_assessments_sound (es : list Event) (w : World) :
  unit_draws w ->
  exists st,
    fst (run es initialState w) = Done st
    /\ Forall (fun a =>
                 (exists d, In d (documents st) /\ doc_id d = docId a)
                 /\ Forall item_well_formed (items a))
              (assessments st).
Proof.
  intros Hw.
  destruct (run_invariant es initialState w Hw initial_progress_in_range
              initial_assessments_sound) as (st & E & _ & Ha).
  exists st. auto.
Qed.

Lemma session_keeps_assessments_sound_witness :
  exists st,
    fst (run demoSession initialState demoWorld) = Done st
    /\ Forall (fun a =>
                 (exists d, In d (documents st) /\ doc_id d = docId a)
                 /\ Forall item_well_formed (items a))
              (assessments st).
Proof.
  apply (session_keeps_assessments_sound demoSession demoWorld).
  exact demoWorld_unit_draws.
Defined.

(** X18.  An upload puts one document in front of the list, with the
    reading of the clock as its id; looking that id up finds the new
    document, even when an older one has the same id, and every other id
    is looked up as before.  Assessments, profile and progress data are
    left alone, and without a file nothing happens. *)
Theorem upload_then_find :
  (forall (file : File) (st : AppState) (w : World),
      let st' := fst (fst (handleFileUpload (Some file) st w)) in
      documents st' = uploaded_doc file w :: documents st
      /\ find_doc (ticks w 0) st' = Some (uploaded_doc file w)
      /\ (forall id, id <> ticks w 0 -> find_doc id st' = find_doc id st)
      /\ assessments st' = assessments st
      /\ profile st' = profile st
      /\ progressData st' = progressData st)
  /\ (forall (st : AppState) (w : World),
         handleFileUpload None st w = ((st, None), w)).
Proof.
  split; [|reflexivity].
  intros file st w st'. subst st'.
  destruct (handleFileUpload_documents file st w) as (Hd & Ha & Hp & Hpd).
  repeat split; auto.
  - unfold find_doc. rewrite Hd. cbn [find uploaded_doc doc_id].
    now rewrite Z.eqb_refl.
  - intros id Hid. unfold find_doc. rewrite Hd. cbn [find uploaded_doc doc_id].
    destruct (Z.eqb_spec (ticks w 0) id); [congruence | reflexivity].
Qed.

(** X19.  For a file that is a PDF by type or by name, and not text by
    type or by name, the content plays no part: the stored text is the
    fixed stub, the stub flag is set, the route stays and a message is
    shown. *)
Theorem pdf_content_is_never_read (file : File) (text' : string)
        (st : AppState) (w : World) :
  stored_as_stub file = true ->
  handleFileUpload
    (Some (mkFile (file_name file) (file_size file) (file_type file) text'))
    st w
  = handleFileUpload (Some file) st w
  /\ (exists doc,
         documents (fst (fst (handleFileUpload (Some file) st w)))
         = doc :: documents st
         /\ doc_text doc = "[PDF parsing required]"
         /\ pdfStub doc = true)
  /\ route (fst (fst (handleFileUpload (Some file) st w))) = route st
  /\ snd (fst (handleFileUpload (Some file) st w)) <> None.
Proof.
  intros H. unfold stored_as_stub in H.
  apply andb_true_iff in H as [Ht Hp]. apply negb_true_iff in Ht.
  unfold handleFileUpload.
  unfold is_text_file, is_pdf_file in *. cbn [file_name file_type file_size].
  rewrite Ht, Hp. cbn. repeat split.
  - eexists. repeat split.
  - discriminate.
Qed.

Lemma pdf_content_is_never_read_witness :
  handleFileUpload
    (Some (mkFile "slides.pdf" 9000 "application/pdf" "other bytes"))
    initialState demoWorld
  = handleFileUpload
      (Some (mkFile "slides.pdf" 9000 "application/pdf" "%PDF-1.7"))
      initialState demoWorld
  /\ (exists doc,
         documents (fst (fst (handleFileUpload
                                (Some (mkFile "slides.pdf" 9000
                                              "application/pdf" "%PDF-1.7"))
                                initialState demoWorld)))
         = doc :: documents initialState
         /\ doc_text doc = "[PDF parsing required]"
         /\ pdfStub doc = true)
  /\ route (fst (fst (handleFileUpload
                        (Some (mkFile "slides.pdf" 9000 "application/pdf"
                                      "%PDF-1.7"))
                        initialState demoWorld)))
     = route initialState
  /\ snd (fst (handleFileUpload
                 (Some (mkFile "slides.pdf" 9000 "application/pdf" "%PDF-1.7"))
                 initialState demoWorld))
     <> None.
Proof.
  apply (pdf_content_is_never_read
           (mkFile "slides.pdf" 9000 "application/pdf" "%PDF-1.7")
           "other bytes" initialState demoWorld).
  reflexivity.
Defined.

(** X20.  Uploading a file whose text is read and then generating with
    the id that the document got builds the assessment from the sentences
    of that text: its items follow the picks among them, it carries that
    id and the name of the file in its title. *)
Theorem upload_then_generate (file : File) (type : string) (limit : Z)
        (st : AppState) (w : World) :
  stored_as_stub file = false ->
  let st1 := fst (fst (handleFileUpload (Some file) st w)) in
  let w1 := snd (handleFileUpload (Some file) st w) in
  let st2 := fst (generateAssessmentFromDoc (ticks w 0) type limit st1 w1) in
  exists a,
    assessments st2 = a :: assessments st
    /\ docId a = ticks w 0
    /\ title a = ("Auto Assessment - " ++ file_name file)%string
    /\ Forall2 (item_of type)
               (fst (pickSentences (Some (extractSentences (file_text file)))
                                   limit w1))
               (items a)
    /\ route st2 = "assessments".
Proof.
  intros Hstub st1 w1 st2.
  assert (Hfind : find_doc (ticks w 0) st1 = Some (uploaded_doc file w)).
  { subst st1. destruct (handleFileUpload_documents file st w) as (Hd & _).
    unfold find_doc. rewrite Hd. cbn [find uploaded_doc doc_id].
    now rewrite Z.eqb_refl. }
  assert (Has : assessments st1 = assessments st).
  { subst st1. apply (handleFileUpload_documents file st w). }
  destruct (generateAssessmentFromDoc_result (ticks w 0) type limit st1 w1
              _ Hfind) as (created & E).
  subst st2. rewrite E. eexists. split; [cbn [assessments]; now rewrite Has|].
  cbn [docId title items route uploaded_doc doc_name doc_text].
  rewrite Hstub. repeat split. apply map_items_spec.
Qed.

Lemma upload_then_generate_witness :
  let st1 := fst (fst (handleFileUpload (Some demoFile) initialState demoWorld)) in
  let w1 := snd (handleFileUpload (Some demoFile) initialState demoWorld) in
  let st2 := fst (generateAssessmentFromDoc (ticks demoWorld 0) "mcq" 4 st1 w1) in
  exists a,
    assessments st2 = a :: assessments initialState
    /\ docId a = ticks demoWorld 0
    /\ title a = ("Auto Assessment - " ++ file_name demoFile)%string
    /\ Forall2 (item_of "mcq")
               (fst (pickSentences
                       (Some (extractSentences (file_text demoFile))) 4 w1))
               (items a)
    /\ route st2 = "assessments".
Proof.
  apply (upload_then_generate demoFile "mcq" 4 initialState demoWorld).
  reflexivity.
Defined.

Section ProfileFacts.

Import Rules.

Lemma lower_char_idempotent (c : ascii) :
  lower_char (lower_char c) = lower_char c.
Proof.
  destruct c as [[|] [|] [|] [|] [|] [|] [|] [|]]; reflexivity.
Qed.

Lemma toLowerCase_idempotent (s : string) :
  toLowerCase (toLowerCase s) = toLowerCase s.
Proof.
  induction s as [|c s IH]; simpl; [reflexivity|].
  now rewrite lower_char_idempotent, IH.
Qed.

Lemma truthy_toLowerCase (s : string) : truthy (toLowerCase s) = truthy s.
Proof. destruct s; reflexivity. Qed.

Lemma empty_toLowerCase (s : string) :
  (toLowerCase s =? "")%string = (s =? "")%string.
Proof. destruct s; reflexivity. Qed.

(** The rules read the three matched fields through their lower case. *)
Lemma holds_by_lower_case (k : rule) (p p' : Profile) (n n' : nat) :
  toLowerCase (qualification p) = toLowerCase (qualification p') ->
  toLowerCase (syllabus p) = toLowerCase (syllabus p') ->
  toLowerCase (nationality p) = toLowerCase (nationality p') ->
  learningStyle p = learningStyle p' ->
  (3 <=? n)%nat = (3 <=? n')%nat ->
  holds k p n = holds k p' n' /\ advice k p = advice k p'.
Proof.
  intros Hq Hs Hn Hl Hd. destruct k; cbn [holds advice];
    rewrite ?Hq, ?Hs, ?Hn, ?Hl, ?Hd; split; try reflexivity.
  now rewrite <- (empty_toLowerCase (syllabus p)), Hs, empty_toLowerCase.
Qed.

Lemma fired_by_lower_case (ks : list rule) (p p' : Profile) (n n' : nat) :
  toLowerCase (qualification p) = toLowerCase (qualification p') ->
  toLowerCase (syllabus p) = toLowerCase (syllabus p') ->
  toLowerCase (nationality p) = toLowerCase (nationality p') ->
  learningStyle p = learningStyle p' ->
  (3 <=? n)%nat = (3 <=? n')%nat ->
  fired ks p n = fired ks p' n'.
Proof.
  intros Hq Hs Hn Hl Hd. unfold fired.
  induction ks as [|k ks IH]; [reflexivity|]. cbn [filter].
  destruct (holds_by_lower_case k p p' n n' Hq Hs Hn Hl Hd) as [-> Ha].
  destruct (holds k p' n'); cbn [map]; now rewrite ?Ha, IH.
Qed.

Ltac six_cases p n :=
  destruct (holds R1 p n), (holds R2 p n), (holds R3 p n), (holds R4 p n),
    (holds R5 p n), (holds R6 p n).

Lemma rules_2_and_4_exclude (p : Profile) (n : nat) :
  holds R2 p n = true -> holds R4 p n = false.
Proof.
  cbn [holds]. destruct (syllabus p); [discriminate | reflexivity].
Qed.

Lemma fired_all_unfold (p : Profile) (n : nat) :
  fired all p n
  = (if holds R1 p n then [advice R1 p] else [])
      ++ (if holds R2 p n then [advice R2 p] else [])
      ++ (if holds R3 p n then [advice R3 p] else [])
      ++ (if holds R4 p n then [advice R4 p] else [])
      ++ (if holds R5 p n then [advice R5 p] else [])
      ++ (if holds R6 p n then [advice R6 p] else []).
Proof.
  unfold fired, all. cbn [filter]. six_cases p n; reflexivity.
Qed.

End ProfileFacts.

(** X21.  [generateAISuggestions] returns between one and five strings
    (rules 2 and 4 exclude each other), and no string twice. *)
Theorem suggestions_one_to_five_distinct (st : AppState) :
  (1 <= List.length (generateAISuggestions st) <= 5)%nat
  /\ NoDup (generateAISuggestions st).
Proof.
  rewrite suggestions_as_rules. unfold Rules.suggest.
  set (p := profile st). set (n := List.length (documents st)).
  rewrite fired_all_unfold.
  pose proof (rules_2_and_4_exclude p n) as Hx.
  destruct (Rules.holds Rules.R2 p n);
    [rewrite (Hx eq_refl)|];
    destruct (Rules.holds Rules.R1 p n), (Rules.holds Rules.R3 p n),
      (Rules.holds Rules.R5 p n), (Rules.holds Rules.R6 p n);
    try destruct (Rules.holds Rules.R4 p n);
    cbn [app List.length Rules.advice]; (split; [lia|]);
    repeat constructor; cbn [In Advice.tailor];
    intuition discriminate.
Qed.

(** X22.  The message about missing profile data is the whole output
    when it occurs, and it occurs only when no rule holds, so only with a
    syllabus filled in; with an empty syllabus the advice to upload one is
    there.  After a reset of the profile the output is that advice,
    followed by the advice on spaced repetition from three documents
    on. *)
Theorem no_data_message_needs_a_syllabus (st : AppState) :
  (In Advice.no_data (generateAISuggestions st) ->
   generateAISuggestions st = [Advice.no_data]
   /\ syllabus (profile st) <> ""
   /\ forall k, Rules.holds k (profile st) (List.length (documents st)) = false)
  /\ (syllabus (profile st) = "" -> In Advice.upload (generateAISuggestions st))
  /\ generateAISuggestions (set_profile emptyProfile st)
     = Advice.upload
         :: (if (3 <=? List.length (documents st))%nat then [Advice.spaced]
             else []).
Proof.
  rewrite !suggestions_as_rules. unfold Rules.suggest.
  rewrite !fired_all_unfold. split; [|split].
  - set (p := profile st). set (n := List.length (documents st)).
    destruct (Rules.holds Rules.R1 p n) eqn:H1, (Rules.holds Rules.R2 p n) eqn:H2,
      (Rules.holds Rules.R3 p n) eqn:H3, (Rules.holds Rules.R4 p n) eqn:H4,
      (Rules.holds Rules.R5 p n) eqn:H5, (Rules.holds Rules.R6 p n) eqn:H6;
      cbn [app In Rules.advice Advice.tailor]; intros Hin;
      try (exfalso; intuition discriminate).
    split; [reflexivity|]. split.
    + intros E. cbn [Rules.holds] in H4. fold p in E. rewrite E in H4.
      discriminate.
    + intros []; assumption.
  - intros E. cbn [Rules.holds]. rewrite E.
    cbn [toLowerCase includes prefix orb String.eqb app Rules.advice].
    destruct (includes _ "bachelor" || includes _ "undergrad"),
      (toLowerCase (nationality (profile st)) =? "india")%string;
      cbn [app In]; auto.
  - destruct st as [r p docs ass pd].
    cbn [set_profile profile documents Rules.holds].
    destruct (3 <=? List.length docs)%nat; reflexivity.
Qed.

Lemma no_data_message_needs_a_syllabus_witness :
  generateAISuggestions
    (set_profile (mkProfile "" "" "physics" "" "" "") initialState)
  = [Advice.no_data]
  /\ syllabus (profile (set_profile (mkProfile "" "" "physics" "" "" "")
                                    initialState)) <> ""
  /\ forall k,
      Rules.holds k
        (profile (set_profile (mkProfile "" "" "physics" "" "" "") initialState))
        (List.length
           (documents (set_profile (mkProfile "" "" "physics" "" "" "")
                                   initialState)))
      = false.
Proof.
  apply (proj1 (no_data_message_needs_a_syllabus
                  (set_profile (mkProfile "" "" "physics" "" "" "")
                               initialState))).
  left. reflexivity.
Defined.

(** X23.  The suggestions depend on qualification, syllabus and
    nationality through their lower-case forms only, on the learning style
    and on whether there are three documents; name, institution, route,
    assessments and progress data play no part.  So putting the three
    fields in lower case changes nothing. *)
Theorem suggestions_read_lower_case :
  (forall st st' : AppState,
      toLowerCase (qualification (profile st))
      = toLowerCase (qualification (profile st')) ->
      toLowerCase (syllabus (profile st))
      = toLowerCase (syllabus (profile st')) ->
      toLowerCase (nationality (profile st))
      = toLowerCase (nationality (profile st')) ->
      learningStyle (profile st) = learningStyle (profile st') ->
      (3 <=? List.length (documents st))%nat
      = (3 <=? List.length (documents st'))%nat ->
      generateAISuggestions st = generateAISuggestions st')
  /\ (forall st : AppState,
         generateAISuggestions (set_profile (lowered (profile st)) st)
         = generateAISuggestions st).
Proof.
  assert (H : forall st st' : AppState,
      toLowerCase (qualification (profile st))
      = toLowerCase (qualification (profile st')) ->
      toLowerCase (syllabus (profile st))
      = toLowerCase (syllabus (profile st')) ->
      toLowerCase (nationality (profile st))
      = toLowerCase (nationality (profile st')) ->
      learningStyle (profile st) = learningStyle (profile st') ->
      (3 <=? List.length (documents st))%nat
      = (3 <=? List.length (documents st'))%nat ->
      generateAISuggestions st = generateAISuggestions st').
  { intros st st' Hq Hs Hn Hl Hd. rewrite !suggestions_as_rules.
    unfold Rules.suggest.
    now rewrite (fired_by_lower_case Rules.all _ _ _ _ Hq Hs Hn Hl Hd). }
  split; [exact H|].
  intros st. apply H; destruct st as [r p docs ass pd];
    cbn [set_profile profile documents lowered qualification syllabus
         nationality learningStyle];
    auto using toLowerCase_idempotent.
Qed.

Lemma suggestions_read_lower_case_witness :
  generateAISuggestions
    (set_profile (mkProfile "" "" "MATH" "BACHELOR" "INDIA" "") initialState)
  = generateAISuggestions
      (set_profile (mkProfile "Ada" "MIT" "math" "Bachelor" "India" "")
                   demoState).
Proof.
  apply (proj1 suggestions_read_lower_case
           (set_profile (mkProfile "" "" "MATH" "BACHELOR" "INDIA" "")
                        initialState)
           (set_profile (mkProfile "Ada" "MIT" "math" "Bachelor" "India" "")
                        demoState)); reflexivity.
Defined.

Section FieldFacts.

Ltac field_eq f name :=
  destruct (String.eqb_spec f name) as [?|?]; [subst f|].

Ltac all_fields f :=
  field_eq f "name"; [|field_eq f "institution";
    [|field_eq f "syllabus"; [|field_eq f "qualification";
      [|field_eq f "nationality"; [|field_eq f "learningStyle"]]]]].

Lemma updateProfileField_twice (f v v' : string) (p : Profile) :
  updateProfileField f v (updateProfileField f v' p) = updateProfileField f v p.
Proof.
  unfold updateProfileField. all_fields f; reflexivity.
Qed.

Lemma updateProfileField_commute (f g v u : string) (p : Profile) :
  f <> g ->
  updateProfileField f v (updateProfileField g u p)
  = updateProfileField g u (updateProfileField f v p).
Proof.
  intros Hfg. unfold updateProfileField.
  all_fields f; all_fields g; try congruence; reflexivity.
Qed.

End FieldFacts.

(** X24.  Of two writes to the same profile field the last one wins,
    writes to different fields commute, and writing the six fields of a
    profile into the empty profile gives that profile back. *)
Theorem updateProfileField_last_write_wins :
  (forall (f v v' : string) (p : Profile),
      updateProfileField f v (updateProfileField f v' p)
      = updateProfileField f v p)
  /\ (forall (f g v u : string) (p : Profile),
         f <> g ->
         updateProfileField f v (updateProfileField g u p)
         = updateProfileField g u (updateProfileField f v p))
  /\ (forall p : Profile,
         updateProfileField "name" (name p)
           (updateProfileField "institution" (institution p)
              (updateProfileField "syllabus" (syllabus p)
                 (updateProfileField "qualification" (qualification p)
                    (updateProfileField "nationality" (nationality p)
                       (updateProfileField "learningStyle" (learningStyle p)
                          emptyProfile)))))
         = p).
Proof.
  split; [exact updateProfileField_twice|].
  split; [exact updateProfileField_commute|].
  intros [a b c d e f]. reflexivity.
Qed.

Lemma updateProfileField_last_write_wins_witness :
  updateProfileField "name" "Ada" (updateProfileField "syllabus" "Math" emptyProfile)
  = updateProfileField "syllabus" "Math" (updateProfileField "name" "Ada" emptyProfile).
Proof.
  apply (proj1 (proj2 updateProfileField_last_write_wins)
               "name" "syllabus" "Ada" "Math" emptyProfile).
  discriminate.
Defined.
